(** * Magnes cursor helper: classification of the cursor bitmap

    A shallow embedding of [Magnes/CursorHelper/cursorhelper.c] and of the
    enumeration of [CursorHelper-Bridging-Header.h].

    - C [int] is a [Z] with the 32-bit two's complement wrap-around written
      out, [size_t] a [Z] modulo [2^64], [uint8_t] a [Byte.byte];
    - C [double] is IEEE binary64 as specified by the Standard Library's
      [SpecFloat] (precision 53, [emax] 1024, round to nearest even);
    - the heap, the error stream, the platform calls and the loads from the
      pixel buffer are threaded through a state monad whose failure is C
      undefined behaviour (a load outside a live block, a release of a block
      that is not live, a conversion that does not fit). *)

From Stdlib Require Import ZArith List Bool String Lia.
From Stdlib Require Import Strings.Byte.
From Stdlib Require Import Floats.SpecFloat.
From stdpp Require Import base list gmap.

Local Open Scope Z_scope.

(** ** C integers *)

Module CInt.

Definition INT_MIN : Z := - 2 ^ 31.
Definition INT_MAX : Z := 2 ^ 31 - 1.

(** Reduction of a mathematical integer to the value an [int] holds. *)
Definition wrap_int (z : Z) : Z := (z + 2 ^ 31) mod 2 ^ 32 - 2 ^ 31.

Definition int_add (a b : Z) : Z := wrap_int (a + b).
Definition int_sub (a b : Z) : Z := wrap_int (a - b).

Definition in_int_range (z : Z) : bool := (INT_MIN <=? z) && (z <=? INT_MAX).

(** [size_t] is 64 bits wide on the platform of the program. *)
Definition wrap_size_t (z : Z) : Z := z mod 2 ^ 64.
Definition size_t_of_int (z : Z) : Z := wrap_size_t z.
Definition size_t_add (a b : Z) : Z := wrap_size_t (a + b).
Definition size_t_mul (a b : Z) : Z := wrap_size_t (a * b).

(** [uint8_t] promoted to [int]. *)
Definition uint8_to_int (b : byte) : Z := Z.of_N (Byte.to_N b).

End CInt.

Export CInt.

(** ** C doubles *)

Module Double.

Definition double : Type := spec_float.

Definition prec : Z := 53.
Definition emax : Z := 1024.

(** [(double) n] for an [int] [n]. *)
Definition of_int (n : Z) : double := binary_normalize prec emax n 0 false.

(** [a / b] *)
Definition div (a b : double) : double := SFdiv prec emax a b.

(** [a == b] *)
Definition eqb (a b : double) : bool := SFeqb a b.

(** The literal [0.04]: the binary64 number nearest to 4/100,
    [0x3FA47AE147AE147B]. *)
Definition lit_0_04 : double := S754_finite false 5764607523034235 (-57).

(** [(int) f]: truncation toward zero; the conversion is undefined when the
    truncated value does not fit an [int] (and for infinities and NaN). *)
Definition to_int (f : double) : option Z :=
  match f with
  | S754_zero _ => Some 0
  | S754_finite s m e =>
      let t := Z.shiftl (Z.pos m) e in
      let v := if s then - t else t in
      if in_int_range v then Some v else None
  | S754_infinity _ | S754_nan => None
  end.

(** The powers of two that bound a binary64 mantissa, [2^52], [2^53] and
    [2^54]. *)
Definition two52 : Z := 4503599627370496.
Definition two53 : Z := 9007199254740992.
Definition two54 : Z := 18014398509481984.

End Double.

(** ** The cursor categories *)

Inductive CursorType : Type :=
  | ARROW
  | IBEAM
  | HORIZONTAL_RESIZE
  | VERTICAL_RESIZE
  | DIAGONAL_RESIZE
  | POINTER
  | OTHER.

(** The enumeration constants, as the header gives them (the source file
    declares the same constants in the same order without the values). *)
Definition enum_value (c : CursorType) : Z :=
  match c with
  | ARROW => 0
  | IBEAM => 1
  | HORIZONTAL_RESIZE => 2
  | VERTICAL_RESIZE => 3
  | DIAGONAL_RESIZE => 4
  | POINTER => 5
  | OTHER => 6
  end.

(** ** Machine state and the monad of the program *)

(** A line written with [fprintf (stderr, fmt, args...)]. *)
Record log_line := Fprintf { fmt : string; fmt_args : list Z }.

(** Calls into the window server and the frameworks. *)
Inductive platform_call : Type :=
  | CGSGetGlobalCursorDataSize_call
  | CGSGetGlobalCursorData_call (buffer : nat) (size : Z)
  | CFStringCreateWithCString_call (chars : string)
  | CGSSetConnectionProperty_call (key : string) (value : bool)
  | CFRelease_call
  | CGDisplayHideCursor_call
  | CGDisplayShowCursor_call
  | CGEventSourceCreate_call
  | CGEventSourceSetLocalEventsSuppressionInterval_call (seconds : Z)
  | CGSSetDockCursorOverride_call (flag : bool).

Record state := mkState {
  heap : gmap nat (list byte);   (* the live blocks and their bytes *)
  next_block : nat;              (* the block the next allocation returns *)
  released : list nat;           (* the blocks given to [free], in order *)
  stderr : list log_line;
  calls : list platform_call;
  loads : Z                      (* bytes read through [pixelData] so far *)
}.

(** A computation returns a value and the next state, or is undefined
    ([None]). *)
Definition M (A : Type) : Type := state -> option (A * state).

Definition ret {A} (a : A) : M A := fun s => Some (a, s).

Definition bind {A B} (m : M A) (k : A -> M B) : M B :=
  fun s => match m s with
           | Some (a, s') => k a s'
           | None => None
           end.

Declare Scope prog_scope.
Delimit Scope prog_scope with prog.
Notation "x <- m ;; k" := (bind m (fun x => k))
  (at level 100, m at next level, right associativity) : prog_scope.
Notation "m ;;; k" := (bind m (fun _ => k))
  (at level 100, right associativity) : prog_scope.
Local Open Scope prog_scope.

Definition lift_option {A} (o : option A) : M A :=
  fun s => match o with Some a => Some (a, s) | None => None end.

(** A pointer is [NULL] or the start of a block. *)
Definition pointer : Type := option nat.
Definition NULL : pointer := None.

(** [p[idx]] for a [uint8_t *p]. *)
Definition load (p : pointer) (idx : Z) : M byte :=
  fun s =>
    match p with
    | None => None
    | Some b =>
        match heap s !! b with
        | None => None
        | Some bytes =>
            match bytes !! Z.to_nat idx with
            | None => None
            | Some v =>
                Some (v, mkState (heap s) (next_block s) (released s)
                           (stderr s) (calls s) (loads s + 1))
            end
        end
    end.

(** [malloc (n)]; whether it succeeds is the allocator's choice [ok]. The
    bytes of a fresh block are indeterminate in C and zero here. *)
Definition malloc (ok : bool) (n : Z) : M pointer :=
  fun s =>
    if ok then
      Some (Some (next_block s),
            mkState (<[next_block s := replicate (Z.to_nat n) x00]> (heap s))
              (S (next_block s)) (released s) (stderr s) (calls s) (loads s))
    else Some (NULL, s).

(** [free (p)]: nothing for [NULL], the release of a live block, undefined
    otherwise. *)
Definition free (p : pointer) : M unit :=
  fun s =>
    match p with
    | None => Some (tt, s)
    | Some b =>
        match heap s !! b with
        | None => None
        | Some _ =>
            Some (tt, mkState (delete b (heap s)) (next_block s)
                        (released s ++ [b]) (stderr s) (calls s) (loads s))
        end
    end.

Definition fprintf_stderr (f : string) (args : list Z) : M unit :=
  fun s => Some (tt, mkState (heap s) (next_block s) (released s)
                       (stderr s ++ [Fprintf f args]) (calls s) (loads s)).

Definition platform (c : platform_call) : M unit :=
  fun s => Some (tt, mkState (heap s) (next_block s) (released s)
                       (stderr s) (calls s ++ [c]) (loads s)).

(** [for (int i = lo; i < lo + n; ++i) a = body (i, a);] The index stays
    below the bound, an [int], so that [++i] does not wrap. *)
Fixpoint for_upto {A} (n : nat) (lo : Z) (body : Z -> A -> M A) (a : A) : M A :=
  match n with
  | O => ret a
  | S k => a' <- body lo a ;; for_upto k (lo + 1) body a'
  end.

(** [for (int i = 0; i < hi; ++i) ...] *)
Definition for_range {A} (hi : Z) (body : Z -> A -> M A) (a : A) : M A :=
  for_upto (Z.to_nat hi) 0 body a.

(** ** determineResizeDirection *)

(** [((size_t)y * (size_t)width + (size_t)x) * 4] *)
Definition pixel_index (width x y : Z) : Z :=
  size_t_mul
    (size_t_add (size_t_mul (size_t_of_int y) (size_t_of_int width))
       (size_t_of_int x)) 4.

Record diag_counts := mkDiag {
  diagCount1 : Z;
  diagCount2 : Z;
  totalCount : Z
}.

(** The body of the first traversal, lines 32-42. *)
Definition diag_pixel (pixelData : pointer) (width y x : Z)
    (c : diag_counts) : M diag_counts :=
  alpha <- load pixelData (pixel_index width x y) ;;
  ret (if 10 <? uint8_to_int alpha then
         mkDiag
           (if x =? y then int_add (diagCount1 c) 1 else diagCount1 c)
           (if x =? int_sub (int_sub width y) 1
            then int_add (diagCount2 c) 1 else diagCount2 c)
           (int_add (totalCount c) 1)
       else c).

(** Lines 26-44. *)
Definition count_diagonals (pixelData : pointer) (width height : Z)
    : M diag_counts :=
  for_range height
    (fun y c => for_range width (diag_pixel pixelData width y) c)
    (mkDiag 0 0 0).

(** The two fractions of lines 47-48; they are computed only under the guard
    [totalCount > 0] of line 46. *)
Definition diagonal_fractions (c : diag_counts)
    : option (Double.double * Double.double) :=
  if 0 <? totalCount c then
    Some (Double.div (Double.of_int (diagCount1 c))
            (Double.of_int (totalCount c)),
          Double.div (Double.of_int (diagCount2 c))
            (Double.of_int (totalCount c)))
  else None.

(** Lines 46-52: [frac1 == 0 && frac2 == 0.04] under the guard. *)
Definition diagonal_test (c : diag_counts) : bool :=
  match diagonal_fractions c with
  | Some (frac1, frac2) =>
      Double.eqb frac1 (Double.of_int 0) && Double.eqb frac2 Double.lit_0_04
  | None => false
  end.

(** [a[i]] and [a[i] += 1] for an [int a[n]]; outside the array they are
    undefined. *)
Definition array_get (a : list Z) (i : Z) : M Z :=
  lift_option (if 0 <=? i then a !! Z.to_nat i else None).

Definition array_incr (a : list Z) (i : Z) : M (list Z) :=
  v <- array_get a i ;;
  ret (<[Z.to_nat i := int_add v 1]> a).

Record occupancy := mkOcc {
  rowCounts : list Z;
  colCounts : list Z;
  maxInAnyRow : Z
}.

(** The body of the second traversal, lines 67-72. *)
Definition occupancy_pixel (pixelData : pointer) (width y x : Z)
    (o : occupancy) : M occupancy :=
  alpha <- load pixelData (pixel_index width x y) ;;
  if 10 <? uint8_to_int alpha then
    rows <- array_incr (rowCounts o) y ;;
    cols <- array_incr (colCounts o) x ;;
    ret (mkOcc rows cols (maxInAnyRow o))
  else ret o.

(** One row of the second traversal, lines 66-75. *)
Definition occupancy_row (pixelData : pointer) (width y : Z)
    (o : occupancy) : M occupancy :=
  o' <- for_range width (occupancy_pixel pixelData width y) o ;;
  r <- array_get (rowCounts o') y ;;
  ret (if maxInAnyRow o' <? r
       then mkOcc (rowCounts o') (colCounts o') r else o').

(** Lines 77-80. *)
Definition max_column (width : Z) (cols : list Z) : M Z :=
  for_range width
    (fun x m => c <- array_get cols x ;; ret (if m <? c then c else m)) 0.

(** The [switch] of lines 83-97. *)
Definition occupancy_switch (maxRow maxCol : Z) : CursorType :=
  if maxRow =? 6 then VERTICAL_RESIZE
  else if maxRow =? 8 then HORIZONTAL_RESIZE
  else if maxRow =? 10 then HORIZONTAL_RESIZE
  else if maxRow =? 14 then
    (if maxCol =? 13 then POINTER else VERTICAL_RESIZE)
  else OTHER.

Definition determineResizeDirection (pixelData : pointer) (width height : Z)
    : M CursorType :=
  c <- count_diagonals pixelData width height ;;
  if diagonal_test c then ret DIAGONAL_RESIZE
  else
    o <- for_range height (occupancy_row pixelData width)
           (mkOcc (replicate (Z.to_nat height) 0)
              (replicate (Z.to_nat width) 0) 0) ;;
    maxInAnyCol <- max_column width (colCounts o) ;;
    ret (occupancy_switch (maxInAnyRow o) maxInAnyCol).

(** ** getCursorType *)

Definition kCGErrorSuccess : Z := 0.

(** [CGSize]: two [CGFloat]s, which are doubles on the 64-bit platform. *)
Record CGSize := mkCGSize { cg_width : Double.double; cg_height : Double.double }.

(** What the window server, the display services and the allocator answer
    during one call of an exposed function. *)
Record Platform := mkPlatform {
  data_size_status : Z;      (* result of [CGSGetGlobalCursorDataSize] *)
  data_size : Z;             (* [dataSize] after that call *)
  malloc_succeeds : bool;
  data_status : Z;           (* result of [CGSGetGlobalCursorData] *)
  data_bytes : list byte;    (* the bytes it stores through [pixelData] *)
  data_cursorSize : CGSize;  (* [cursorSize] after that call *)
  hide_status : Z;           (* result of [CGDisplayHideCursor] *)
  show_status : Z;           (* result of [CGDisplayShowCursor] *)
  event_source : bool        (* [CGEventSourceCreate] returned a source *)
}.

(** The bytes of a block after [bytes] were stored at its start. *)
Definition overwrite (old bytes : list byte) : list byte :=
  take (length old) (bytes ++ drop (length bytes) old).

(** [CGSGetGlobalCursorData (conn, pixelData, &dataSize, &cursorSize, ...)]:
    the server fills the buffer and reports the size of the bitmap. *)
Definition CGSGetGlobalCursorData (pf : Platform) (pixelData : pointer)
    (dataSize : Z) : M (Z * CGSize) :=
  fun s =>
    match pixelData with
    | None => None
    | Some b =>
        match heap s !! b with
        | None => None
        | Some old =>
            Some ((data_status pf, data_cursorSize pf),
                  mkState (<[b := overwrite old (data_bytes pf)]> (heap s))
                    (next_block s) (released s) (stderr s)
                    (calls s ++ [CGSGetGlobalCursorData_call b dataSize])
                    (loads s))
        end
    end.

(** Lines 143-160, from the two dimensions on. *)
Definition classify_bitmap (pixelData : pointer) (width height : Z) : M Z :=
  if (0 <? width) && (0 <? height) then
    let ratio := Double.div (Double.of_int width) (Double.of_int height) in
    if (width =? 23) && (height =? 22) then
      free pixelData ;;;
      ret (enum_value IBEAM)
    else if Double.eqb ratio (Double.of_int 1) then
      result <- determineResizeDirection pixelData width height ;;
      free pixelData ;;;
      ret (enum_value result)
    else
      free pixelData ;;;
      ret (enum_value ARROW)
  else
    free pixelData ;;;
    ret (enum_value ARROW).

Definition getCursorType (pf : Platform) : M Z :=
  platform CGSGetGlobalCursorDataSize_call ;;;
  let err := data_size_status pf in
  let dataSize := data_size pf in
  if negb (err =? kCGErrorSuccess) || (dataSize <=? 0) then
    fprintf_stderr
      "[Error] GCSGetGlobalCursorDataSize failed with error code %d.\n"
      [err] ;;;
    ret 1
  else
    pixelData <- malloc (malloc_succeeds pf) (size_t_of_int dataSize) ;;
    match pixelData with
    | None =>
        free pixelData ;;;
        fprintf_stderr "[Error] Failed to allocate cursor data buffer.\n" [] ;;;
        ret 1
    | Some _ =>
        reply <- CGSGetGlobalCursorData pf pixelData dataSize ;;
        let err := fst reply in
        let cursorSize := snd reply in
        if negb (err =? kCGErrorSuccess) then
          free pixelData ;;;
          fprintf_stderr
            "[Error] CGSGetGlobalCursorData failed with error code %d.\n"
            [err] ;;;
          ret 1
        else
          width <- lift_option (Double.to_int (cg_width cursorSize)) ;;
          height <- lift_option (Double.to_int (cg_height cursorSize)) ;;
          classify_bitmap pixelData width height
    end.

Definition getCurrentCursorType (pf : Platform) : M Z :=
  type <- getCursorType pf ;;
  ret type.

(** ** hideCursor, notTodayDock, showCursor *)

Definition hideCursor (pf : Platform) : M Z :=
  platform (CFStringCreateWithCString_call "SetsCursorInBackground") ;;;
  platform (CGSSetConnectionProperty_call "SetsCursorInBackground" true) ;;;
  platform CFRelease_call ;;;
  platform CGDisplayHideCursor_call ;;;
  let error := hide_status pf in
  (if negb (error =? kCGErrorSuccess) then
     fprintf_stderr "[Error] CGDisplayHideCursor failed (error = %d)\n" [error]
   else ret tt) ;;;
  platform CGEventSourceCreate_call ;;;
  platform (CGEventSourceSetLocalEventsSuppressionInterval_call 0) ;;;
  (if event_source pf then platform CFRelease_call else ret tt) ;;;
  ret 0.


Definition showCursor (pf : Platform) : M Z :=
  platform CGDisplayShowCursor_call ;;;
  let error := show_status pf in
  (if negb (error =? kCGErrorSuccess) then
     fprintf_stderr "[Error] CGDisplayShowCursor failed (error = %d)\n" [error]
   else ret tt) ;;;
  platform CGEventSourceCreate_call ;;;
  platform (CGEventSourceSetLocalEventsSuppressionInterval_call 0) ;;;
  (if event_source pf then platform CFRelease_call else ret tt) ;;;
  ret 0.

(** ** The occupancy statistics of a bitmap, as the specification words them *)

(** The indices [0, 1, ..., n - 1]. *)
Definition zrange (n : Z) : list Z := map Z.of_nat (seq 0 (Z.to_nat n)).

(** The first byte of the pixel in column [x] of row [y]. *)
Definition alpha_at (buf : list byte) (width x y : Z) : Z :=
  match buf !! Z.to_nat ((y * width + x) * 4) with
  | Some b => uint8_to_int b
  | None => 0
  end.

(** A pixel is opaque when its first byte exceeds 10. *)
Definition opaque (buf : list byte) (width x y : Z) : bool :=
  10 <? alpha_at buf width x y.

Definition indicator (b : bool) : Z := if b then 1 else 0.

Fixpoint sum_over (l : list Z) (f : Z -> Z) : Z :=
  match l with
  | [] => 0
  | i :: l' => f i + sum_over l' f
  end.

Fixpoint max_over (l : list Z) (f : Z -> Z) : Z :=
  match l with
  | [] => 0
  | i :: l' => Z.max (f i) (max_over l' f)
  end.

(** The number of opaque pixels of a [width] x [height] bitmap that
    satisfy [P]. *)
Definition opaque_where (P : Z -> Z -> bool) (buf : list byte)
    (width height : Z) : Z :=
  sum_over (zrange height) (fun y =>
    sum_over (zrange width) (fun x =>
      indicator (opaque buf width x y && P x y))).

Definition opaque_total (buf : list byte) (width height : Z) : Z :=
  opaque_where (fun _ _ => true) buf width height.

Definition opaque_on_diagonal (buf : list byte) (width height : Z) : Z :=
  opaque_where (fun x y => x =? y) buf width height.

Definition opaque_on_antidiagonal (buf : list byte) (width height : Z) : Z :=
  opaque_where (fun x y => x =? width - y - 1) buf width height.

Definition row_count (buf : list byte) (width y : Z) : Z :=
  sum_over (zrange width) (fun x => indicator (opaque buf width x y)).

Definition col_count (buf : list byte) (width height x : Z) : Z :=
  sum_over (zrange height) (fun y => indicator (opaque buf width x y)).

(** The largest number of opaque pixels in one row, in one column. *)
Definition max_row (buf : list byte) (width height : Z) : Z :=
  max_over (zrange height) (row_count buf width).

Definition max_col (buf : list byte) (width height : Z) : Z :=
  max_over (zrange width) (col_count buf width height).

(** The fraction of the opaque pixels that [n] of them are, as the double
    the program compares. *)
Definition fraction (n total : Z) : Double.double :=
  Double.div (Double.of_int n) (Double.of_int total).

(** The diagonal signature: some pixel is opaque, none of the opaque pixels
    is on the main diagonal and 0.04 of them are on the anti-diagonal. *)
Definition diagonal_signature (buf : list byte) (width height : Z) : bool :=
  diagonal_test
    (mkDiag (wrap_int (opaque_on_diagonal buf width height))
       (wrap_int (opaque_on_antidiagonal buf width height))
       (wrap_int (opaque_total buf width height))).

(** The state after [k] more loads from the pixel buffer. *)
Definition add_loads (k : Z) (s : state) : state :=
  mkState (heap s) (next_block s) (released s) (stderr s) (calls s)
    (loads s + k).

(** Every block from [next_block] on is still to be allocated. *)
Definition heap_wf (s : state) : Prop :=
  forall b, (next_block s <= b)%nat -> heap s !! b = None.

(** ** Loop invariants of the two traversals *)

(** The three summands a pixel contributes to the diagonal counters. *)
Definition on_diag (buf : list byte) (width x y : Z) : Z :=
  indicator (opaque buf width x y && (x =? y)).
Definition on_anti (buf : list byte) (width x y : Z) : Z :=
  indicator (opaque buf width x y && (x =? width - y - 1)).
Definition on_any (buf : list byte) (width x y : Z) : Z :=
  indicator (opaque buf width x y && true).

(** [holds a n f]: the array [a] has [n] cells and cell [i] holds [f i]. *)
Definition holds (a : list Z) (n : Z) (f : Z -> Z) : Prop :=
  Z.of_nat (length a) = n /\
  forall i, 0 <= i < n -> a !! Z.to_nat i = Some (f i).

(** The cells of [rowCounts] and [colCounts] when the second traversal is
    about to visit column [x] of row [y]. *)
Definition rows_at (buf : list byte) (width y x i : Z) : Z :=
  if i <? y then row_count buf width i
  else if i =? y
       then sum_over (zrange x) (fun x' => indicator (opaque buf width x' y))
       else 0.

Definition cols_at (buf : list byte) (width y x j : Z) : Z :=
  sum_over (zrange y) (fun y' => indicator (opaque buf width j y'))
  + (if j <? x then indicator (opaque buf width j y) else 0).

Definition visiting (buf : list byte) (width height y x : Z)
    (o : occupancy) : Prop :=
  holds (rowCounts o) height (rows_at buf width y x) /\
  holds (colCounts o) width (cols_at buf width y x) /\
  maxInAnyRow o = max_over (zrange y) (row_count buf width).

(** ** Sample bitmaps and states *)

Definition pixel_bytes (on : bool) : list byte :=
  [if on then xff else x00; x00; x00; x00].

(** The [width] x [height] bitmap whose pixel [(x, y)] is opaque when
    [f x y]. *)
Definition draw (width height : Z) (f : Z -> Z -> bool) : list byte :=
  concat (map (fun y => concat (map (fun x => pixel_bytes (f x y))
                                  (zrange width)))
            (zrange height)).

(** A state whose only live block, block 0, holds [buf]. *)
Definition state_with (buf : list byte) : state :=
  mkState {[ 0%nat := buf ]} 1 [] [] [] 0.

Definition initial_state : state := mkState ∅ 0 [] [] [] 0.

(** An 8 x 8 bitmap with one full row. *)
Definition bar_8 : list byte := draw 8 8 (fun x y => y =? 3).

(** An 8 x 8 bitmap with 25 opaque pixels: six in each of the rows 0 to 3,
    none of them on a diagonal, and the anti-diagonal pixel of row 4. *)
Definition slash_8 : list byte :=
  draw 8 8 (fun x y =>
    if y <? 4 then negb (x =? y) && negb (x =? 7 - y)
    else (y =? 4) && (x =? 3)).

(** An 8 x 8 bitmap without an opaque pixel. *)
Definition blank_8 : list byte := draw 8 8 (fun _ _ => false).

(** ** The outcomes of the platform calls of one query *)

(** The size query succeeds with a positive size. *)
Definition size_query_ok (pf : Platform) : Prop :=
  data_size_status pf = kCGErrorSuccess /\ 0 < data_size pf.

Definition fetch_ok (pf : Platform) : Prop :=
  data_status pf = kCGErrorSuccess.

(** The dimensions of the fetched bitmap, as the integers of lines
    135-136. *)
Definition reported_size (pf : Platform) (width height : Z) : Prop :=
  Double.to_int (cg_width (data_cursorSize pf)) = Some width /\
  Double.to_int (cg_height (data_cursorSize pf)) = Some height.

(** The three internal failures of a query: the size query, the allocation,
    the fetch. *)
Definition size_query_fails (pf : Platform) : Prop :=
  data_size_status pf <> kCGErrorSuccess \/ data_size pf <= 0.

Definition allocation_fails (pf : Platform) : Prop :=
  size_query_ok pf /\ malloc_succeeds pf = false.

Definition fetch_fails (pf : Platform) : Prop :=
  size_query_ok pf /\ malloc_succeeds pf = true /\
  data_status pf <> kCGErrorSuccess.

Definition internal_failure (pf : Platform) : Prop :=
  size_query_fails pf \/ allocation_fails pf \/ fetch_fails pf.

(** The bytes of the buffer of a query once the bitmap is fetched. *)
Definition fetched_bytes (pf : Platform) : list byte :=
  overwrite (replicate (Z.to_nat (size_t_of_int (data_size pf))) x00)
    (data_bytes pf).

(** The state of a query once the bitmap is fetched into its buffer. *)
Definition fetched (pf : Platform) (s : state) : state :=
  mkState (<[next_block s := fetched_bytes pf]> (heap s))
    (S (next_block s)) (released s) (stderr s)
    ((calls s ++ [CGSGetGlobalCursorDataSize_call])
       ++ [CGSGetGlobalCursorData_call (next_block s) (data_size pf)])
    (loads s).

(** Sample answers of the platform. *)
Definition no_size : CGSize := mkCGSize (Double.of_int 0) (Double.of_int 0).

Definition ibeam_platform : Platform :=
  mkPlatform 0 2024 true 0 []
    (mkCGSize (Double.of_int 23) (Double.of_int 22)) 0 0 true.

Definition bar_platform : Platform :=
  mkPlatform 0 256 true 0 bar_8
    (mkCGSize (Double.of_int 8) (Double.of_int 8)) 0 0 true.

Definition wide_platform : Platform :=
  mkPlatform 0 2048 true 0 []
    (mkCGSize (Double.of_int 32) (Double.of_int 16)) 0 0 true.

Definition empty_platform : Platform :=
  mkPlatform 0 16 true 0 [] no_size 0 0 true.

Definition service_down : Platform :=
  mkPlatform 1000 0 true 0 [] no_size 1000 1000 false.

(** ** Outcomes of a query, and further samples *)

(** Whether a query gets a buffer: the size query succeeds with a positive
    size and the allocation succeeds. *)
Definition allocates (pf : Platform) : bool :=
  (data_size_status pf =? kCGErrorSuccess) && (0 <? data_size pf)
  && malloc_succeeds pf.

(** The state a query that got a buffer returns in: the buffer released,
    [lines] written to the error stream and [k] bytes read. *)
Definition query_done (pf : Platform) (s : state) (lines : list log_line)
    (k : Z) : state :=
  mkState (delete (next_block s) (heap (fetched pf s)))
    (S (next_block s)) (released s ++ [next_block s])
    (stderr s ++ lines) (calls (fetched pf s)) (loads s + k).

(** The state a query that got no buffer returns in. *)
Definition query_refused (s : state) (line : log_line) : state :=
  mkState (heap s) (next_block s) (released s) (stderr s ++ [line])
    (calls s ++ [CGSGetGlobalCursorDataSize_call]) (loads s).


(** A platform that reports an 8 x 8 bitmap and a buffer of 16 bytes. *)
Definition short_platform : Platform :=
  mkPlatform 0 16 true 0 [] (mkCGSize (Double.of_int 8) (Double.of_int 8))
    0 0 true.

(** The state after a visibility function: [lines] written to the error
    stream and [cs] called. *)
Definition after_calls (s : state) (lines : list log_line)
    (cs : list platform_call) : state :=
  mkState (heap s) (next_block s) (released s) (stderr s ++ lines)
    (calls s ++ cs) (loads s).

(** An 8 x 4 bitmap with one full row. *)
Definition band_8x4 : list byte := draw 8 4 (fun x y => y =? 1).

(** The 8 x 8 bitmap with one full row again, its opaque pixels with a
    first byte of 11 and its other pixels with a first byte of 10, and
    other bytes in the three channels that follow. *)
Definition tinted_bar_8 : list byte :=
  concat (map (fun y => concat (map (fun x =>
                  if y =? 3 then [x0b; xff; x80; x01]
                  else [x0a; x7f; xff; xff])
                (zrange 8)))
            (zrange 8)).

(** * Properties *)

(** ** Integer arithmetic *)

Lemma wrap_int_small z : INT_MIN <= z <= INT_MAX -> wrap_int z = z.
Proof.
  unfold INT_MIN, INT_MAX, wrap_int. intros H.
  rewrite Z.mod_small; lia.
Qed.

Lemma wrap_int_add_l a b : wrap_int (wrap_int a + b) = wrap_int (a + b).
Proof.
  unfold wrap_int.
  replace ((a + 2 ^ 31) mod 2 ^ 32 - 2 ^ 31 + b + 2 ^ 31)
    with ((a + 2 ^ 31) mod 2 ^ 32 + b) by lia.
  rewrite Zplus_mod_idemp_l. do 2 f_equal. lia.
Qed.

Lemma int_add_wrap a b : int_add (wrap_int a) b = wrap_int (a + b).
Proof. apply wrap_int_add_l. Qed.

Lemma pixel_index_in_range width height x y :
  width <= INT_MAX -> height <= INT_MAX ->
  0 <= x < width -> 0 <= y < height ->
  pixel_index width x y = (y * width + x) * 4.
Proof.
  unfold INT_MAX, pixel_index, size_t_mul, size_t_add, size_t_of_int,
    wrap_size_t.
  change (2 ^ 31) with 2147483648. change (2 ^ 64) with 18446744073709551616.
  intros Hw Hh Hx Hy.
  assert (0 <= y * width <= 2147483646 * 2147483647) by nia.
  rewrite (Z.mod_small y), (Z.mod_small width), (Z.mod_small x) by lia.
  rewrite (Z.mod_small (y * width)) by lia.
  rewrite (Z.mod_small (y * width + x)) by lia.
  apply Z.mod_small. lia.
Qed.

(** ** Ranges, sums and maxima *)

Lemma zrange_succ n : 0 <= n -> zrange (n + 1) = zrange n ++ [n].
Proof.
  intros Hn. unfold zrange.
  replace (Z.to_nat (n + 1)) with (S (Z.to_nat n)) by lia.
  rewrite seq_S, map_app. simpl. do 2 f_equal. lia.
Qed.

Lemma zrange_0 : zrange 0 = [].
Proof. reflexivity. Qed.

Lemma elem_of_zrange n i : i ∈ zrange n <-> 0 <= i < n.
Proof.
  unfold zrange. rewrite list_elem_of_fmap. split.
  - intros (k & -> & Hk). apply elem_of_seq in Hk. lia.
  - intros Hi. exists (Z.to_nat i). split; [lia|]. apply elem_of_seq. lia.
Qed.

Lemma sum_over_app l1 l2 f :
  sum_over (l1 ++ l2) f = sum_over l1 f + sum_over l2 f.
Proof. induction l1 as [|i l1 IH]; simpl; lia. Qed.

Lemma max_over_nonneg l f : 0 <= max_over l f.
Proof. induction l; simpl; lia. Qed.

Lemma max_over_app l1 l2 f :
  max_over (l1 ++ l2) f = Z.max (max_over l1 f) (max_over l2 f).
Proof.
  induction l1 as [|i l1 IH]; simpl; [|rewrite IH; lia].
  pose proof (max_over_nonneg l2 f). lia.
Qed.

Lemma sum_over_ext l f g :
  (forall i, i ∈ l -> f i = g i) -> sum_over l f = sum_over l g.
Proof.
  induction l as [|i l IH]; simpl; intros H; [done|].
  rewrite H, IH; [done| |]; intros; try apply H; rewrite elem_of_cons; auto.
Qed.

Lemma max_over_ext l f g :
  (forall i, i ∈ l -> f i = g i) -> max_over l f = max_over l g.
Proof.
  induction l as [|i l IH]; simpl; intros H; [done|].
  rewrite H, IH; [done| |]; intros; try apply H; rewrite elem_of_cons; auto.
Qed.

Lemma sum_over_zero l : sum_over l (fun _ => 0) = 0.
Proof. induction l; simpl; lia. Qed.

Lemma max_over_zero l : max_over l (fun _ => 0) = 0.
Proof. induction l; simpl; lia. Qed.

Lemma sum_over_bounds l f lo hi :
  (forall i, i ∈ l -> lo <= f i <= hi) ->
  lo * Z.of_nat (length l) <= sum_over l f <= hi * Z.of_nat (length l).
Proof.
  induction l as [|i l IH]; intros H; [simpl; lia|].
  assert (lo <= f i <= hi) by (apply H; rewrite elem_of_cons; auto).
  assert (lo * Z.of_nat (length l) <= sum_over l f <= hi * Z.of_nat (length l))
    by (apply IH; intros; apply H; rewrite elem_of_cons; auto).
  cbn [sum_over length]. lia.
Qed.

Lemma length_zrange n : Z.of_nat (length (zrange n)) = Z.max 0 n.
Proof. unfold zrange. rewrite length_map, length_seq. lia. Qed.

Lemma indicator_bounds b : 0 <= indicator b <= 1.
Proof. destruct b; simpl; lia. Qed.

(** ** The monad *)

Lemma add_loads_0 s : add_loads 0 s = s.
Proof. destruct s. unfold add_loads. simpl. f_equal. lia. Qed.

Lemma add_loads_add a b s : add_loads a (add_loads b s) = add_loads (b + a) s.
Proof. unfold add_loads. simpl. f_equal. lia. Qed.

Lemma heap_add_loads k s : heap (add_loads k s) = heap s.
Proof. reflexivity. Qed.

Lemma load_run b buf idx v s :
  heap s !! b = Some buf -> buf !! Z.to_nat idx = Some v ->
  load (Some b) idx s = Some (v, add_loads 1 s).
Proof. intros Hb Hv. unfold load. rewrite Hb, Hv. reflexivity. Qed.

(** A loop whose every iteration performs [k] loads and carries the
    invariant [J] from one index to the next runs to its end. *)
Lemma for_upto_inv {A} (J : Z -> A -> Prop) (b : nat) (buf : list byte)
    (k : Z) (body : Z -> A -> M A) (n : nat) :
  forall (lo : Z) (a : A) (s : state),
  (forall i a s, lo <= i < lo + Z.of_nat n -> heap s !! b = Some buf ->
     J i a ->
     exists a', body i a s = Some (a', add_loads k s) /\ J (i + 1) a') ->
  heap s !! b = Some buf -> J lo a ->
  exists a', for_upto n lo body a s
             = Some (a', add_loads (Z.of_nat n * k) s)
             /\ J (lo + Z.of_nat n) a'.
Proof.
  induction n as [|n IH]; intros lo a s Hbody Hheap HJ.
  - exists a. simpl. unfold ret. rewrite add_loads_0, Z.add_0_r. done.
  - destruct (Hbody lo a s) as (a1 & Hrun & HJ1); [lia|done|done|].
    destruct (IH (lo + 1) a1 (add_loads k s)) as (a2 & Hrest & HJ2).
    + intros i a' s' Hi. apply Hbody. lia.
    + done.
    + done.
    + exists a2. split.
      * cbn [for_upto]. unfold bind. rewrite Hrun, Hrest, add_loads_add.
        do 2 f_equal. f_equal. lia.
      * replace (lo + Z.of_nat (S n)) with (lo + 1 + Z.of_nat n) by lia. done.
Qed.

Lemma for_range_inv {A} (J : Z -> A -> Prop) (b : nat) (buf : list byte)
    (k : Z) (body : Z -> A -> M A) (hi : Z) (a : A) (s : state) :
  0 <= hi ->
  (forall i a s, 0 <= i < hi -> heap s !! b = Some buf -> J i a ->
     exists a', body i a s = Some (a', add_loads k s) /\ J (i + 1) a') ->
  heap s !! b = Some buf -> J 0 a ->
  exists a', for_range hi body a s = Some (a', add_loads (hi * k) s)
             /\ J hi a'.
Proof.
  intros Hhi Hbody Hheap HJ. unfold for_range.
  destruct (for_upto_inv J b buf k body (Z.to_nat hi) 0 a s)
    as (a' & Hrun & HJ'); [|done|done|].
  - intros i a0 s0 Hi. apply Hbody. lia.
  - exists a'. rewrite Z2Nat.id in Hrun, HJ' by done. done.
Qed.

(** ** The two traversals of determineResizeDirection *)

Section Traversals.

Variables (b : nat) (buf : list byte) (width height : Z).
Hypothesis width_int : 0 < width <= INT_MAX.
Hypothesis height_int : 0 <= height <= INT_MAX.
(** The first byte of the last pixel is in the buffer. *)
Hypothesis in_bounds : 4 * (width * height - 1) < Z.of_nat (length buf).

Lemma pixel_in_buffer x y :
  0 <= x < width -> 0 <= y < height ->
  exists v, buf !! Z.to_nat ((y * width + x) * 4) = Some v.
Proof.
  intros Hx Hy. apply lookup_lt_is_Some_2.
  assert (y * width + x < width * height) by nia. lia.
Qed.

Lemma load_pixel x y s :
  0 <= x < width -> 0 <= y < height -> heap s !! b = Some buf ->
  exists v, load (Some b) (pixel_index width x y) s = Some (v, add_loads 1 s)
            /\ (10 <? uint8_to_int v) = opaque buf width x y.
Proof.
  intros Hx Hy Hheap.
  destruct (pixel_in_buffer x y Hx Hy) as [v Hv].
  exists v. split.
  - rewrite (pixel_index_in_range width height) by lia.
    by apply (load_run b buf).
  - unfold opaque, alpha_at. by rewrite Hv.
Qed.

Lemma antidiagonal_int y :
  0 <= y < height -> int_sub (int_sub width y) 1 = width - y - 1.
Proof.
  intros Hy. unfold int_sub. unfold INT_MAX in *.
  rewrite (wrap_int_small (width - y)) by (unfold INT_MIN, INT_MAX; lia).
  apply wrap_int_small. unfold INT_MIN, INT_MAX. lia.
Qed.

Local Abbreviation on_diag := (on_diag buf width).
Local Abbreviation on_anti := (on_anti buf width).
Local Abbreviation on_any := (on_any buf width).

Lemma diag_pixel_run x y a1 a2 t s :
  0 <= x < width -> 0 <= y < height -> heap s !! b = Some buf ->
  diag_pixel (Some b) width y x
    (mkDiag (wrap_int a1) (wrap_int a2) (wrap_int t)) s
  = Some (mkDiag (wrap_int (a1 + on_diag x y)) (wrap_int (a2 + on_anti x y))
            (wrap_int (t + on_any x y)), add_loads 1 s).
Proof.
  intros Hx Hy Hheap.
  destruct (load_pixel x y s Hx Hy Hheap) as (v & Hload & Hv).
  unfold diag_pixel, bind, ret. rewrite Hload, Hv. cbn [diagCount1 diagCount2 totalCount].
  rewrite antidiagonal_int by done.
  unfold on_diag, on_anti, on_any.
  destruct (opaque buf width x y); cbn [andb indicator].
  - rewrite !int_add_wrap.
    destruct (x =? y), (x =? width - y - 1); cbn [indicator];
      by rewrite ?Z.add_0_r.
  - by rewrite !Z.add_0_r.
Qed.

Lemma diag_row_run y a1 a2 t s :
  0 <= y < height -> heap s !! b = Some buf ->
  for_range width (diag_pixel (Some b) width y)
    (mkDiag (wrap_int a1) (wrap_int a2) (wrap_int t)) s
  = Some (mkDiag
            (wrap_int (a1 + sum_over (zrange width) (fun x => on_diag x y)))
            (wrap_int (a2 + sum_over (zrange width) (fun x => on_anti x y)))
            (wrap_int (t + sum_over (zrange width) (fun x => on_any x y))),
          add_loads width s).
Proof.
  intros Hy Hheap.
  destruct (for_range_inv
    (fun x c => c = mkDiag
       (wrap_int (a1 + sum_over (zrange x) (fun x => on_diag x y)))
       (wrap_int (a2 + sum_over (zrange x) (fun x => on_anti x y)))
       (wrap_int (t + sum_over (zrange x) (fun x => on_any x y))))
    b buf 1 (diag_pixel (Some b) width y) width
    (mkDiag (wrap_int a1) (wrap_int a2) (wrap_int t)) s)
    as (c & Hrun & ->); [lia| |done| |].
  - intros x c s' Hx Hheap' ->. eexists. split.
    + by apply diag_pixel_run.
    + rewrite zrange_succ, !sum_over_app by lia. cbn [sum_over].
      by rewrite !Z.add_0_r, !Z.add_assoc.
  - by rewrite zrange_0; cbn [sum_over]; rewrite !Z.add_0_r.
  - by rewrite Z.mul_1_r in Hrun.
Qed.

Lemma count_diagonals_run s :
  heap s !! b = Some buf ->
  count_diagonals (Some b) width height s
  = Some (mkDiag (wrap_int (opaque_on_diagonal buf width height))
            (wrap_int (opaque_on_antidiagonal buf width height))
            (wrap_int (opaque_total buf width height)),
          add_loads (height * width) s).
Proof.
  intros Hheap. unfold count_diagonals.
  destruct (for_range_inv
    (fun y c => c = mkDiag
       (wrap_int (opaque_on_diagonal buf width y))
       (wrap_int (opaque_on_antidiagonal buf width y))
       (wrap_int (opaque_total buf width y)))
    b buf width
    (fun y c => for_range width (diag_pixel (Some b) width y) c) height
    (mkDiag 0 0 0) s)
    as (c & Hrun & ->); [lia| |done|done|done].
  intros y c s' Hy Hheap' ->. eexists. split.
  - by apply diag_row_run.
  - unfold opaque_on_diagonal, opaque_on_antidiagonal, opaque_total,
      opaque_where.
    by rewrite zrange_succ, !sum_over_app by lia; cbn [sum_over];
      rewrite !Z.add_0_r.
Qed.

Lemma holds_ext a n f g :
  (forall i, 0 <= i < n -> f i = g i) -> holds a n f -> holds a n g.
Proof.
  intros Hfg [Hlen Hcells]. split; [done|].
  intros i Hi. rewrite <- Hfg by done. by apply Hcells.
Qed.

Lemma holds_replicate n : 0 <= n -> holds (replicate (Z.to_nat n) 0) n (fun _ => 0).
Proof.
  intros Hn. split.
  - rewrite length_replicate. lia.
  - intros i Hi. apply lookup_replicate_2. lia.
Qed.

Lemma array_get_run a n f i s :
  holds a n f -> 0 <= i < n -> array_get a i s = Some (f i, s).
Proof.
  intros [_ Hcells] Hi. unfold array_get, lift_option.
  destruct (Z.leb_spec 0 i); [|lia]. by rewrite Hcells.
Qed.

Lemma array_incr_run a n f i s :
  holds a n f -> 0 <= i < n -> 0 <= f i < INT_MAX ->
  exists a', array_incr a i s = Some (a', s) /\
             holds a' n (fun j => if j =? i then f i + 1 else f j).
Proof.
  intros Ha Hi Hfi. eexists. split.
  - unfold array_incr, bind. rewrite (array_get_run a n f) by done.
    reflexivity.
  - destruct Ha as [Hlen Hcells]. split.
    + by rewrite length_insert.
    + intros j Hj. destruct (Z.eqb_spec j i) as [->|Hne].
      * rewrite list_lookup_insert_eq by lia. f_equal.
        apply wrap_int_small. unfold INT_MIN, INT_MAX in *. lia.
      * rewrite list_lookup_insert_ne by lia. by apply Hcells.
Qed.

Local Abbreviation rows_at := (rows_at buf width).
Local Abbreviation cols_at := (cols_at buf width).
Local Abbreviation visiting := (visiting buf width height).

Lemma partial_sum_bounds n f :
  0 <= n -> (forall i, 0 <= f i <= 1) -> 0 <= sum_over (zrange n) f <= n.
Proof.
  intros Hn Hf.
  pose proof (sum_over_bounds (zrange n) f 0 1 (fun i _ => Hf i)) as H.
  rewrite length_zrange in H. lia.
Qed.

Lemma occupancy_pixel_run x y o s :
  0 <= x < width -> 0 <= y < height -> heap s !! b = Some buf ->
  visiting y x o ->
  exists o', occupancy_pixel (Some b) width y x o s
             = Some (o', add_loads 1 s) /\ visiting y (x + 1) o'.
Proof.
  intros Hx Hy Hheap (Hrows & Hcols & Hmax).
  destruct (load_pixel x y s Hx Hy Hheap) as (v & Hload & Hv).
  unfold occupancy_pixel, bind. rewrite Hload, Hv.
  destruct (opaque buf width x y) eqn:Hop.
  - destruct (array_incr_run _ _ _ y (add_loads 1 s) Hrows) as (rows & Hr & Hrows');
      [done| |].
    { unfold rows_at. rewrite Z.ltb_irrefl, Z.eqb_refl.
      pose proof (partial_sum_bounds x
        (fun x' => indicator (opaque buf width x' y))) as Hb.
      specialize (Hb ltac:(lia) (fun i => indicator_bounds _)). lia. }
    destruct (array_incr_run _ _ _ x (add_loads 1 s) Hcols) as (cols & Hc & Hcols');
      [done| |].
    { unfold cols_at. rewrite Z.ltb_irrefl.
      pose proof (partial_sum_bounds y
        (fun y' => indicator (opaque buf width x y'))) as Hb.
      specialize (Hb ltac:(lia) (fun i => indicator_bounds _)). lia. }
    rewrite Hr, Hc. eexists. split; [reflexivity|].
    split; [|split]; cbn [rowCounts colCounts maxInAnyRow]; [| |done].
    + eapply holds_ext; [|exact Hrows']. intros i Hi. unfold rows_at.
      destruct (Z.eqb_spec i y) as [->|Hne].
      * rewrite Z.ltb_irrefl, Z.eqb_refl, zrange_succ, sum_over_app by lia.
        cbn [sum_over]. rewrite Hop. simpl. lia.
      * done.
    + eapply holds_ext; [|exact Hcols']. intros j Hj. unfold cols_at.
      destruct (Z.eqb_spec j x) as [->|Hne].
      * rewrite Z.ltb_irrefl, Hop.
        destruct (Z.ltb_spec x (x + 1)); [|lia]. simpl. lia.
      * destruct (Z.ltb_spec j x), (Z.ltb_spec j (x + 1)); (done || lia).
  - eexists. split; [reflexivity|].
    split; [|split]; [| |done].
    + eapply holds_ext; [|exact Hrows]. intros i Hi. unfold rows_at.
      destruct (Z.eqb_spec i y) as [->|Hne]; [|done].
      rewrite zrange_succ, sum_over_app by lia.
      cbn [sum_over]. rewrite Hop. simpl. by rewrite !Z.add_0_r.
    + eapply holds_ext; [|exact Hcols]. intros j Hj. unfold cols_at.
      destruct (Z.ltb_spec j x), (Z.ltb_spec j (x + 1)); try (done || lia).
      assert (j = x) as -> by lia. by rewrite Hop.
Qed.

Lemma occupancy_row_run y o s :
  0 <= y < height -> heap s !! b = Some buf -> visiting y 0 o ->
  exists o', occupancy_row (Some b) width y o s
             = Some (o', add_loads width s) /\ visiting (y + 1) 0 o'.
Proof.
  intros Hy Hheap Hvis.
  destruct (for_range_inv (visiting y) b buf 1
    (occupancy_pixel (Some b) width y) width o s)
    as (o1 & Hrun & Hrows & Hcols & Hmax); [lia| |done|done|].
  { intros x o' s' Hx Hheap' Hvis'. by apply occupancy_pixel_run. }
  rewrite Z.mul_1_r in Hrun.
  unfold occupancy_row, bind, ret. rewrite Hrun.
  rewrite (array_get_run _ _ _ y _ Hrows) by done.
  eexists. split; [reflexivity|].
  assert (rows_at y width y = row_count buf width y) as Hr.
  { unfold rows_at. by rewrite Z.ltb_irrefl, Z.eqb_refl. }
  rewrite Hr.
  assert (holds (rowCounts o1) height (rows_at (y + 1) 0)) as Hrows'.
  { eapply holds_ext; [|exact Hrows]. intros i Hi. unfold rows_at.
    destruct (Z.ltb_spec i y), (Z.ltb_spec i (y + 1)); try (done || lia).
    - assert (i = y) as -> by lia. by rewrite Z.eqb_refl.
    - destruct (Z.eqb_spec i y), (Z.eqb_spec i (y + 1)); (done || lia). }
  assert (holds (colCounts o1) width (cols_at (y + 1) 0)) as Hcols'.
  { eapply holds_ext; [|exact Hcols]. intros j Hj. unfold cols_at.
    rewrite zrange_succ, sum_over_app by lia. cbn [sum_over].
    destruct (Z.ltb_spec j width), (Z.ltb_spec j 0); lia. }
  assert (Z.max (maxInAnyRow o1) (row_count buf width y)
          = max_over (zrange (y + 1)) (row_count buf width)) as Hmax'.
  { rewrite zrange_succ, max_over_app, Hmax by lia. cbn [max_over].
    pose proof (max_over_nonneg (zrange y) (row_count buf width)). lia. }
  destruct (Z.ltb_spec (maxInAnyRow o1) (row_count buf width y));
    (split; [|split]); cbn [rowCounts colCounts maxInAnyRow];
    try done; rewrite <- Hmax'; lia.
Qed.

Lemma occupancy_run s :
  heap s !! b = Some buf ->
  exists o,
    for_range height (occupancy_row (Some b) width)
      (mkOcc (replicate (Z.to_nat height) 0) (replicate (Z.to_nat width) 0) 0)
      s
    = Some (o, add_loads (height * width) s)
    /\ holds (rowCounts o) height (row_count buf width)
    /\ holds (colCounts o) width (col_count buf width height)
    /\ maxInAnyRow o = max_row buf width height.
Proof.
  intros Hheap.
  destruct (for_range_inv (fun y => visiting y 0) b buf width
    (occupancy_row (Some b) width) height
    (mkOcc (replicate (Z.to_nat height) 0) (replicate (Z.to_nat width) 0) 0)
    s) as (o & Hrun & Hrows & Hcols & Hmax); [lia| |done| |].
  - intros y o s' Hy Hheap' Hvis. by apply occupancy_row_run.
  - split; [|split]; cbn [rowCounts colCounts maxInAnyRow]; [| |done].
    + eapply holds_ext; [|apply holds_replicate; lia].
      intros i Hi. unfold rows_at.
      destruct (Z.ltb_spec i 0), (Z.eqb_spec i 0); (done || lia).
    + eapply holds_ext; [|apply holds_replicate; lia].
      intros j Hj. unfold cols_at. rewrite zrange_0. simpl.
      destruct (Z.ltb_spec j 0); (done || lia).
  - exists o. split; [done|]. split; [|split]; [| |done].
    + eapply holds_ext; [|exact Hrows]. intros i Hi. unfold rows_at.
      destruct (Z.ltb_spec i height); (done || lia).
    + eapply holds_ext; [|exact Hcols]. intros j Hj. unfold cols_at, col_count.
      destruct (Z.ltb_spec j 0); lia.
Qed.

Lemma max_column_run cols s :
  heap s !! b = Some buf ->
  holds cols width (col_count buf width height) ->
  max_column width cols s = Some (max_col buf width height, s).
Proof.
  intros Hheap Hcols. unfold max_column.
  destruct (for_range_inv
    (fun x m => m = max_over (zrange x) (col_count buf width height))
    b buf 0
    (fun x m => c <- array_get cols x ;; ret (if m <? c then c else m))
    width 0 s) as (m & Hrun & ->); [lia| |done|done|].
  - intros x m s' Hx Hheap' ->. eexists. split.
    + unfold bind, ret. rewrite (array_get_run _ _ _ x _ Hcols) by done.
      by rewrite add_loads_0.
    + rewrite zrange_succ, max_over_app by lia. cbn [max_over].
      pose proof (max_over_nonneg (zrange x) (col_count buf width height)).
      destruct (Z.ltb_spec (max_over (zrange x) (col_count buf width height))
                  (col_count buf width height x)); lia.
  - by rewrite Z.mul_0_r, add_loads_0 in Hrun.
Qed.

(** What the classifier computes on a buffer that holds the whole bitmap. *)
Lemma determineResizeDirection_run s :
  heap s !! b = Some buf ->
  determineResizeDirection (Some b) width height s
  = if diagonal_signature buf width height
    then Some (DIAGONAL_RESIZE, add_loads (height * width) s)
    else Some (occupancy_switch (max_row buf width height)
                 (max_col buf width height),
               add_loads (2 * (height * width)) s).
Proof.
  intros Hheap. unfold determineResizeDirection, bind.
  rewrite count_diagonals_run by done.
  fold (diagonal_signature buf width height).
  destruct (diagonal_signature buf width height); [done|].
  destruct (occupancy_run (add_loads (height * width) s))
    as (o & Hrun & Hrows & Hcols & Hmax); [done|].
  rewrite Hrun, (max_column_run (colCounts o) (add_loads _ (add_loads _ s)) Hheap Hcols), Hmax.
  unfold ret. rewrite add_loads_add. do 3 f_equal. lia.
Qed.

End Traversals.

(** ** The classifier changes nothing but the count of loads *)

Lemma load_frame p idx s v s' :
  load p idx s = Some (v, s') -> s' = add_loads 1 s.
Proof.
  unfold load. destruct p as [b|]; [|done].
  destruct (heap s !! b) as [bytes|]; [|done].
  destruct (bytes !! Z.to_nat idx); [|done]. by intros [= _ <-].
Qed.

Lemma array_get_frame a i s v s' : array_get a i s = Some (v, s') -> s' = s.
Proof.
  unfold array_get, lift_option.
  destruct (if 0 <=? i then a !! Z.to_nat i else None); [|done].
  by intros [= _ <-].
Qed.

Lemma array_incr_frame a i s a' s' :
  array_incr a i s = Some (a', s') -> s' = s.
Proof.
  unfold array_incr, bind, ret.
  destruct (array_get a i s) as [[v s1]|] eqn:E; [|done].
  apply array_get_frame in E as ->. by intros [= _ <-].
Qed.

Lemma for_upto_frame {A} (body : Z -> A -> M A) (n : nat) :
  (forall i a s a' s', body i a s = Some (a', s') ->
     exists k, s' = add_loads k s) ->
  forall lo a s a' s',
    for_upto n lo body a s = Some (a', s') -> exists k, s' = add_loads k s.
Proof.
  intros Hbody. induction n as [|n IH]; intros lo a s a' s'.
  - intros [= _ <-]. exists 0. by rewrite add_loads_0.
  - cbn [for_upto]. unfold bind.
    destruct (body lo a s) as [[a1 s1]|] eqn:E1; [|done].
    intros E2. apply Hbody in E1 as [k1 ->]. apply IH in E2 as [k2 ->].
    exists (k1 + k2). by rewrite add_loads_add.
Qed.

Lemma determineResizeDirection_frame pixelData width height s r s' :
  determineResizeDirection pixelData width height s = Some (r, s') ->
  exists k, s' = add_loads k s.
Proof.
  assert (forall y c s c' s',
            for_range width (diag_pixel pixelData width y) c s = Some (c', s')
            -> exists k, s' = add_loads k s) as Hdiag.
  { intros y c s0 c' s0'. apply for_upto_frame.
    intros x c0 s1 c1 s1'. unfold diag_pixel, bind, ret.
    destruct (load _ _ s1) as [[v s2]|] eqn:E; [|done].
    apply load_frame in E as ->. intros [= _ <-]. by exists 1. }
  assert (forall y o s o' s',
            occupancy_row pixelData width y o s = Some (o', s')
            -> exists k, s' = add_loads k s) as Hrow.
  { intros y o s0 o' s0'. unfold occupancy_row, bind, ret.
    destruct (for_range width _ o s0) as [[o1 s1]|] eqn:E1; [|done].
    destruct (array_get _ y s1) as [[v s2]|] eqn:E2; [|done].
    intros [= _ <-]. apply array_get_frame in E2 as ->.
    revert E1. apply for_upto_frame.
    intros x o2 s3 o3 s3'. unfold occupancy_pixel, bind, ret.
    destruct (load _ _ s3) as [[v' s4]|] eqn:E; [|done].
    apply load_frame in E as ->.
    destruct (10 <? uint8_to_int v'); [|intros [= _ <-]; by exists 1].
    destruct (array_incr _ y _) as [[rows s5]|] eqn:E3; [|done].
    apply array_incr_frame in E3 as ->.
    destruct (array_incr _ x _) as [[cols s6]|] eqn:E4; [|done].
    apply array_incr_frame in E4 as ->.
    intros [= _ <-]. by exists 1. }
  unfold determineResizeDirection, count_diagonals, max_column, bind, ret.
  destruct (for_range height _ (mkDiag 0 0 0) s) as [[c s1]|] eqn:E1; [|done].
  apply for_upto_frame in E1 as [k1 ->]; [|done].
  destruct (diagonal_test c); [intros [= _ <-]; by exists k1|].
  destruct (for_range height (occupancy_row pixelData width) _ _)
    as [[o s2]|] eqn:E2; [|done].
  apply for_upto_frame in E2 as [k2 ->]; [|done].
  destruct (for_range width _ 0 _) as [[m s3]|] eqn:E3; [|done].
  apply for_upto_frame in E3 as [k3 ->].
  - intros [= _ <-]. exists (k1 + (k2 + k3)). by rewrite !add_loads_add.
  - intros x m0 s4 m1 s4'.
    destruct (array_get _ x s4) as [[v s5]|] eqn:E; [|done].
    apply array_get_frame in E as ->. intros [= _ <-].
    exists 0. by rewrite add_loads_0.
Qed.

(** ** The counters of the first traversal do not wrap on bitmaps of
    fewer than [2^31] opaque pixels *)

Lemma opaque_where_nonneg P buf width height :
  0 <= opaque_where P buf width height.
Proof.
  unfold opaque_where.
  pose proof (sum_over_bounds (zrange height)
    (fun y => sum_over (zrange width)
       (fun x => indicator (opaque buf width x y && P x y)))
    0 (Z.of_nat (length (zrange width)))) as H.
  assert (0 * Z.of_nat (length (zrange height)) = 0) as E by lia.
  rewrite E in H. apply H. intros y _.
  pose proof (sum_over_bounds (zrange width)
    (fun x => indicator (opaque buf width x y && P x y)) 0 1
    (fun i _ => indicator_bounds _)). lia.
Qed.

Lemma sum_over_le l f g :
  (forall i, f i <= g i) -> sum_over l f <= sum_over l g.
Proof.
  intros H. induction l as [|i l IH]; simpl; [lia|]. specialize (H i). lia.
Qed.

Lemma opaque_where_le_total P buf width height :
  opaque_where P buf width height <= opaque_total buf width height.
Proof.
  unfold opaque_total, opaque_where.
  apply sum_over_le. intros y. apply sum_over_le. intros x.
  destruct (opaque buf width x y), (P x y); simpl; lia.
Qed.

Lemma diagonal_signature_no_wrap buf width height :
  opaque_total buf width height <= INT_MAX ->
  diagonal_signature buf width height
  = diagonal_test (mkDiag (opaque_on_diagonal buf width height)
                     (opaque_on_antidiagonal buf width height)
                     (opaque_total buf width height)).
Proof.
  intros Hfit. unfold diagonal_signature.
  pose proof (opaque_where_nonneg (fun x y => x =? y) buf width height).
  pose proof (opaque_where_nonneg (fun x y => x =? width - y - 1)
                buf width height).
  pose proof (opaque_where_nonneg (fun _ _ => true) buf width height).
  pose proof (opaque_where_le_total (fun x y => x =? y) buf width height).
  pose proof (opaque_where_le_total (fun x y => x =? width - y - 1)
                buf width height).
  unfold opaque_on_diagonal, opaque_on_antidiagonal, opaque_total in *.
  rewrite !wrap_int_small; [done|..]; unfold INT_MIN, INT_MAX in *; lia.
Qed.

(** Whatever the arguments, a returned category is one of the five the
    function names. *)
Lemma determineResizeDirection_range pixelData width height s r s' :
  determineResizeDirection pixelData width height s = Some (r, s') ->
  r = DIAGONAL_RESIZE \/ r = HORIZONTAL_RESIZE \/ r = VERTICAL_RESIZE
  \/ r = POINTER \/ r = OTHER.
Proof.
  unfold determineResizeDirection, bind, ret. intros H.
  destruct (count_diagonals pixelData width height s) as [[c s1]|]; [|done].
  destruct (diagonal_test c); [left; congruence|].
  destruct (for_range height _ _ s1) as [[o s2]|]; [|done].
  destruct (max_column width (colCounts o) s2) as [[m s3]|]; [|done].
  injection H as <- _. unfold occupancy_switch.
  repeat match goal with |- context [if ?c then _ else _] => destruct c end;
    auto.
Qed.

(** ** Binary64 arithmetic on the integers of the program *)

Module DoubleFacts.

Import Double.

Lemma digits2_pos_size p : digits2_pos p = Pos.size p.
Proof. induction p; simpl; congruence. Qed.

Lemma Zdigits2_log2 z : 0 < z -> Zdigits2 z = Z.log2 z + 1.
Proof.
  destruct z as [|p|p]; try lia. intros _. unfold Zdigits2.
  rewrite digits2_pos_size. destruct p; simpl; lia.
Qed.

Lemma Zdigits2_bounds z d :
  0 < d -> 2 ^ (d - 1) <= z < 2 ^ d -> Zdigits2 z = d.
Proof.
  intros Hd Hz.
  assert (0 < z) by (pose proof (Z.pow_pos_nonneg 2 (d - 1)); lia).
  rewrite Zdigits2_log2 by done.
  rewrite (Z.log2_unique z (d - 1)); [lia|lia|].
  replace (Z.succ (d - 1)) with d by lia. done.
Qed.

Lemma iter_xO_mul p k : Z.pos (Pos.iter xO p k) = Z.pos p * 2 ^ Z.pos k.
Proof.
  induction k as [|k IH] using Pos.peano_ind.
  - simpl. lia.
  - rewrite Pos.iter_succ, Pos2Z.inj_xO, IH, Pos2Z.inj_succ, Z.pow_succ_r by lia.
    lia.
Qed.

Lemma loc_of_shr_record_of_loc m l :
  loc_of_shr_record (shr_record_of_loc m l) = l.
Proof. destruct l as [|[]]; reflexivity. Qed.

Lemma shr_m_of_loc m l : shr_m (shr_record_of_loc m l) = m.
Proof. destruct l as [|[]]; reflexivity. Qed.

Lemma fexp_small e : -1021 <= e -> fexp prec emax e = e - 53.
Proof. unfold fexp, emin, prec, emax. lia. Qed.

(** second stage of rounding *)
Lemma round_stage2 (s : bool) m1 e :
  two52 <= m1 <= two53 -> -1074 <= e <= 970 ->
  (let '(mrs, e') := shr_fexp prec emax m1 e loc_Exact in
   match shr_m mrs with
   | Z0 => S754_zero s
   | Zpos m => if e' <=? emax - prec then S754_finite s m e' else S754_infinity s
   | Zneg _ => S754_nan
   end)
  = if m1 =? two53 then S754_finite s (Z.to_pos two52) (e + 1)
    else S754_finite s (Z.to_pos m1) e.
Proof.
  intros Hm He. unfold shr_fexp.
  destruct (Z.eqb_spec m1 two53) as [->|Hne].
  - change (Zdigits2 two53) with 54.
    rewrite fexp_small by lia.
    replace (54 + e - 53 - e) with 1 by lia.
    cbn [shr shr_record_of_loc iter_pos shr_1 two53 shr_m].
    destruct (Z.leb_spec (e + 1) (emax - prec)); [|unfold emax, prec in *; lia].
    reflexivity.
  - rewrite (Zdigits2_bounds m1 53) by (unfold two52, two53 in *; lia).
    rewrite fexp_small by lia.
    replace (53 + e - 53 - e) with 0 by lia.
    cbn [shr shr_record_of_loc shr_m].
    destruct m1 as [|p|p]; try (unfold two52 in *; lia).
    destruct (Z.leb_spec e (emax - prec)); [|unfold emax, prec in *; lia].
    reflexivity.
Qed.

Lemma round_nearest_even_bounds m l :
  m <= round_nearest_even m l <= m + 1.
Proof. destruct l as [|[]]; simpl; try lia. destruct (Z.even m); lia. Qed.

Lemma round_53 (s : bool) q e l :
  two52 <= q < two53 -> -1074 <= e <= 970 ->
  binary_round_aux prec emax s q e l
  = if round_nearest_even q l =? two53
    then S754_finite s (Z.to_pos two52) (e + 1)
    else S754_finite s (Z.to_pos (round_nearest_even q l)) e.
Proof.
  intros Hq He. unfold binary_round_aux.
  assert (shr_fexp prec emax q e l = (shr_record_of_loc q l, e)) as ->.
  { unfold shr_fexp.
    rewrite (Zdigits2_bounds q 53) by (unfold two52, two53 in *; lia).
    rewrite fexp_small by lia.
    replace (53 + e - 53 - e) with 0 by lia. reflexivity. }
  rewrite shr_m_of_loc, loc_of_shr_record_of_loc.
  pose proof (round_nearest_even_bounds q l).
  apply round_stage2; lia.
Qed.

Lemma shr_1_m m r s : 0 <= m -> shr_m (shr_1 (Build_shr_record m r s)) = m / 2.
Proof.
  intros Hm. destruct m as [|p|p]; [reflexivity| |lia].
  destruct p; cbn [shr_1 shr_m].
  - apply Z.div_unique with 1; lia.
  - apply Z.div_unique with 0; lia.
  - reflexivity.
Qed.

Lemma round_54 (s : bool) q e l :
  two53 <= q < two54 -> -1074 <= e <= 969 ->
  binary_round_aux prec emax s q e l
  = let r1 := shr_1 (shr_record_of_loc q l) in
    let m1 := round_nearest_even (shr_m r1) (loc_of_shr_record r1) in
    if m1 =? two53
    then S754_finite s (Z.to_pos two52) (e + 2)
    else S754_finite s (Z.to_pos m1) (e + 1).
Proof.
  intros Hq He. unfold binary_round_aux.
  assert (shr_fexp prec emax q e l = (shr_1 (shr_record_of_loc q l), e + 1)) as ->.
  { unfold shr_fexp.
    rewrite (Zdigits2_bounds q 54) by (unfold two54, two53 in *; lia).
    rewrite fexp_small by lia.
    replace (54 + e - 53 - e) with 1 by lia. reflexivity. }
  cbv zeta.
  assert (shr_m (shr_1 (shr_record_of_loc q l)) = q / 2) as Hm.
  { destruct l as [|[]]; apply shr_1_m; unfold two53 in *; lia. }
  pose proof (round_nearest_even_bounds (q / 2)
                (loc_of_shr_record (shr_1 (shr_record_of_loc q l)))).
  rewrite Hm in *.
  assert (two52 <= q / 2 < two53).
  { unfold two52, two53, two54 in *. split.
    - apply Z.div_le_lower_bound; lia.
    - apply Z.div_lt_upper_bound; lia. }
  rewrite round_stage2 by lia.
  replace (e + 1 + 1) with (e + 2) by lia. reflexivity.
Qed.

Lemma SFdiv_normal mx ex my ey :
  two52 <= Z.pos mx < two53 -> two52 <= Z.pos my < two53 ->
  -1000 <= ex - ey ->
  SFdiv prec emax (S754_finite false mx ex) (S754_finite false my ey)
  = binary_round_aux prec emax false (Z.pos mx * two53 / Z.pos my)
      (ex - ey - 53)
      (new_location (Z.pos my) ((Z.pos mx * two53) mod Z.pos my)).
Proof.
  intros Hx Hy He. unfold SFdiv, SFdiv_core_binary.
  rewrite (Zdigits2_bounds (Z.pos mx) 53), (Zdigits2_bounds (Z.pos my) 53)
    by (unfold two52, two53 in *; lia).
  rewrite fexp_small by lia.
  replace (Z.min (53 + ex - (53 + ey) - 53) (ex - ey)) with (ex - ey - 53) by lia.
  replace (ex - ey - (ex - ey - 53)) with 53 by lia.
  rewrite Z.shiftl_mul_pow2 by lia. change (2 ^ 53) with two53.
  unfold Z.div, Z.modulo.
  destruct (Z.div_eucl (Z.pos mx * two53) (Z.pos my)) as [q r].
  reflexivity.
Qed.

Lemma of_int_pos w :
  0 < w <= INT_MAX ->
  exists m k, of_int w = S754_finite false m (- k)
              /\ Z.pos m = w * 2 ^ k
              /\ two52 <= Z.pos m < two53 /\ 22 <= k <= 52.
Proof.
  intros Hw. destruct w as [|p|p]; try lia.
  pose proof (Zdigits2_log2 (Z.pos p) ltac:(lia)) as Hd.
  pose proof (Z.log2_spec (Z.pos p) ltac:(lia)) as Hspec.
  pose proof (Z.log2_nonneg (Z.pos p)) as Hnn.
  assert (Z.log2 (Z.pos p) < 31) as Hlt.
  { apply Z.log2_lt_pow2; [lia|]. unfold INT_MAX in Hw. lia. }
  cbn [Zdigits2] in Hd.
  set (D := Z.pos (digits2_pos p)) in *.
  set (L := Z.log2 (Z.pos p)) in *.
  unfold of_int, binary_normalize, binary_round.
  fold D. rewrite fexp_small by lia. unfold shl_align.
  destruct (D + 0 - 53 - 0) as [|k|k] eqn:Ek; try lia.
  assert (Z.pos k = 52 - L) as Hk by lia.
  assert (two52 <= Z.pos (Pos.iter xO p k) < two53) as Hm.
  { rewrite iter_xO_mul, Hk.
    assert (2 ^ L * 2 ^ (52 - L) = two52) as E1.
    { rewrite <- Z.pow_add_r by lia. replace (L + (52 - L)) with 52 by lia.
      reflexivity. }
    assert (2 ^ Z.succ L = 2 * 2 ^ L) as E2 by (apply Z.pow_succ_r; lia).
    assert (0 < 2 ^ (52 - L)) by (apply Z.pow_pos_nonneg; lia).
    unfold two53. change 9007199254740992 with (2 * two52). nia. }
  exists (Pos.iter xO p k), (Z.pos k). split; [|split; [|split]].
  - rewrite round_53 by (lia || done).
    cbn [round_nearest_even].
    destruct (Z.eqb_spec (Z.pos (Pos.iter xO p k)) two53); [lia|].
    cbn [Z.to_pos]. f_equal. lia.
  - apply iter_xO_mul.
  - done.
  - lia.
Qed.

Lemma eqb_finite_inv m e m' e' :
  SFeqb (S754_finite false m e) (S754_finite false m' e') = true ->
  e = e' /\ m = m'.
Proof.
  unfold SFeqb, SFcompare. destruct (Z.compare_spec e e'); try done.
  fold (Pos.compare m m'). destruct (Pos.compare_spec m m'); done.
Qed.

Lemma shr_1_of_loc_m q l :
  0 <= q -> shr_m (shr_1 (shr_record_of_loc q l)) = q / 2.
Proof. intros Hq. destruct l as [|[]]; by apply shr_1_m. Qed.

Lemma new_location_0 n : new_location n 0 = loc_Exact.
Proof. unfold new_location. by destruct (Z.even n). Qed.

Lemma div_bounds a b : 0 < b -> b * (a / b) <= a < b * (a / b + 1).
Proof.
  intros Hb. pose proof (Z.mul_div_le a b Hb).
  pose proof (Z.mul_succ_div_gt a b Hb). lia.
Qed.

Lemma ratio_equal w :
  0 < w <= INT_MAX ->
  eqb (div (of_int w) (of_int w)) (of_int 1) = true.
Proof.
  intros Hw. destruct (of_int_pos w Hw) as (m & k & -> & Hm & Hb & Hk).
  unfold div. rewrite SFdiv_normal by (done || lia).
  rewrite Z.mul_comm, Z.div_mul, Z.mod_mul, new_location_0 by lia.
  replace (- k - - k - 53) with (-53) by lia.
  reflexivity.
Qed.

(** The quotient of two normalised mantissas, in terms of the integers. *)
Lemma quotient_same_shift w h p :
  0 < h -> 0 < p ->
  let q := w * p * two53 / (h * p) in
  h * q <= w * two53 < h * (q + 1).
Proof.
  intros Hh Hp q.
  assert (q = w * two53 / h) as ->.
  { unfold q. replace (w * p * two53) with (w * two53 * p) by lia.
    apply Z.div_mul_cancel_r; lia. }
  apply div_bounds. lia.
Qed.

Lemma quotient_shift_up w h p :
  0 < h -> 0 < p ->
  let q := w * p * two53 / (h * (p * 2)) in
  h * q <= w * two52 < h * (q + 1).
Proof.
  intros Hh Hp q.
  assert (q = w * two52 / h) as ->.
  { unfold q. replace (w * p * two53) with (w * two52 * (p * 2))
      by (unfold two52, two53; lia).
    replace (h * (p * 2)) with (h * (p * 2)) by lia.
    apply Z.div_mul_cancel_r; lia. }
  apply div_bounds. lia.
Qed.

Lemma quotient_shift_down w h p :
  0 < h -> 0 < p ->
  let q := w * (p * 2) * two53 / (h * p) in
  h * q <= w * two54 < h * (q + 1).
Proof.
  intros Hh Hp q.
  assert (q = w * two54 / h) as ->.
  { unfold q. replace (w * (p * 2) * two53) with (w * two54 * p)
      by (unfold two54, two53; lia).
    apply Z.div_mul_cancel_r; lia. }
  apply div_bounds. lia.
Qed.

Lemma quotient_below_one w h q T :
  0 < h < 2147483648 -> w < h -> 4294967296 <= T ->
  h * q <= w * T -> T - 2 <= q -> False.
Proof.
  intros Hh Hwh HT Hq HqT.
  assert (h * (T - 2) <= h * q) by (apply Z.mul_le_mono_nonneg_l; lia).
  assert (w * T <= (h - 1) * T) by (apply Z.mul_le_mono_nonneg_r; lia).
  lia.
Qed.

Lemma quotient_above_one w h q T :
  0 < h < 2147483648 -> h < w -> 4294967296 <= T ->
  w * T < h * (q + 1) -> q <= T + 1 -> False.
Proof.
  intros Hh Hwh HT Hq HqT.
  assert (h * (q + 1) <= h * (T + 2)) by (apply Z.mul_le_mono_nonneg_l; lia).
  assert ((h + 1) * T <= w * T) by (apply Z.mul_le_mono_nonneg_r; lia).
  lia.
Qed.

Lemma ratio_different w h :
  0 < w <= INT_MAX -> 0 < h <= INT_MAX -> w <> h ->
  eqb (div (of_int w) (of_int h)) (of_int 1) = false.
Proof.
  intros Hw Hh Hne.
  destruct (of_int_pos w Hw) as (mw & kw & -> & Emw & Bw & Hkw).
  destruct (of_int_pos h Hh) as (mh & kh & -> & Emh & Bh & Hkh).
  unfold div. rewrite SFdiv_normal by (done || lia).
  rewrite Emw, Emh in *. clear Emw Emh.
  remember (w * 2 ^ kw * two53 / (h * 2 ^ kh)) as q eqn:Eq.
  set (l := new_location _ _).
  assert (0 < 2 ^ kw) as Pw by (apply Z.pow_pos_nonneg; lia).
  assert (0 < 2 ^ kh) as Ph by (apply Z.pow_pos_nonneg; lia).
  assert (w < 2147483648 /\ h < 2147483648) as [Hw' Hh']
    by (unfold INT_MAX in *; lia).
  apply not_true_is_false. intros Heq.
  change (of_int 1) with (S754_finite false 4503599627370496 (-52)) in Heq.
  destruct (Z.lt_ge_cases (w * 2 ^ kw) (h * 2 ^ kh)) as [Hlt|Hge].
  - assert (two52 <= q < two53) as Bq.
    { rewrite Eq. unfold two52, two53, two54 in *. split.
      - apply Z.div_le_lower_bound; nia.
      - apply Z.div_lt_upper_bound; nia. }
    rewrite round_53 in Heq by lia.
    pose proof (round_nearest_even_bounds q l) as Hr.
    destruct (Z.eqb_spec (round_nearest_even q l) two53) as [E|E].
    + apply eqb_finite_inv in Heq as [He _].
      assert (kh = kw) as Ek by lia. subst kh.
      assert (w < h) by nia.
      pose proof (quotient_same_shift w h (2 ^ kw) ltac:(lia) Pw) as Hq'.
      cbv zeta in Hq'. rewrite <- Eq in Hq'.
      apply (quotient_below_one w h q two53); unfold two53 in *; lia.
    + apply eqb_finite_inv in Heq as [He Hm].
      assert (round_nearest_even q l = two52) as Hr2.
      { unfold two52 in *. lia. }
      assert (kh = kw + 1) as Ek by lia. subst kh.
      rewrite Z.pow_add_r in * by lia. change (2 ^ 1) with 2 in *.
      assert (h < w) by (unfold two52, two53 in *; nia).
      pose proof (quotient_shift_up w h (2 ^ kw) ltac:(lia) Pw) as Hq'.
      cbv zeta in Hq'. rewrite <- Eq in Hq'.
      apply (quotient_above_one w h q two52); unfold two52 in *; lia.
  - assert (two53 <= q < two54) as Bq.
    { rewrite Eq. unfold two52, two53, two54 in *. split.
      - apply Z.div_le_lower_bound; nia.
      - apply Z.div_lt_upper_bound; nia. }
    rewrite round_54 in Heq by lia.
    cbv zeta in Heq.
    pose proof (round_nearest_even_bounds
      (shr_m (shr_1 (shr_record_of_loc q l)))
      (loc_of_shr_record (shr_1 (shr_record_of_loc q l)))) as Hr.
    set (m1 := round_nearest_even _ _) in *.
    rewrite shr_1_of_loc_m in Hr by (unfold two53 in *; lia).
    pose proof (div_bounds q 2 ltac:(lia)) as Hq2.
    destruct (Z.eqb_spec m1 two53) as [E|E].
    + apply eqb_finite_inv in Heq as [He _].
      assert (kw = kh + 1) as Ek by lia. subst kw.
      rewrite Z.pow_add_r in * by lia. change (2 ^ 1) with 2 in *.
      assert (w < h) by (unfold two52, two53 in *; nia).
      pose proof (quotient_shift_down w h (2 ^ kh) ltac:(lia) Ph) as Hq'.
      cbv zeta in Hq'. rewrite <- Eq in Hq'.
      apply (quotient_below_one w h q two54); unfold two53, two54 in *; lia.
    + apply eqb_finite_inv in Heq as [He Hm].
      assert (m1 = two52) as Hr2 by (unfold two52 in *; lia).
      assert (kh = kw) as Ek by lia. subst kh.
      assert (h < w) by nia.
      pose proof (quotient_same_shift w h (2 ^ kw) ltac:(lia) Pw) as Hq'.
      cbv zeta in Hq'. rewrite <- Eq in Hq'.
      apply (quotient_above_one w h q two53); unfold two52, two53 in *; lia.
Qed.

(** [lit_0_04] is a normal binary64 number, the one nearest to 4/100: its
    neighbours are further from it, and it is what the division of 4 by 100
    rounds to. *)
Example lit_0_04_nearest :
  valid_binary prec emax lit_0_04 = true
  /\ 25 * 5764607523034235 - 2 ^ 57 = 3
  /\ 25 * 5764607523034234 - 2 ^ 57 = -22
  /\ div (of_int 4) (of_int 100) = lit_0_04.
Proof. repeat split. Qed.

Lemma of_int_0 : of_int 0 = S754_zero false.
Proof. reflexivity. Qed.

(** The quotient of two positive integers of the program is a positive
    normal number. *)
Lemma div_of_int_finite w h :
  0 < w <= INT_MAX -> 0 < h <= INT_MAX ->
  exists m e, div (of_int w) (of_int h) = S754_finite false m e.
Proof.
  intros Hw Hh.
  destruct (of_int_pos w Hw) as (mw & kw & -> & Emw & Bw & Hkw).
  destruct (of_int_pos h Hh) as (mh & kh & -> & Emh & Bh & Hkh).
  unfold div. rewrite SFdiv_normal by (done || lia).
  remember (Z.pos mw * two53 / Z.pos mh) as q eqn:Eq.
  set (l := new_location _ _).
  destruct (Z.lt_ge_cases (Z.pos mw) (Z.pos mh)) as [Hlt|Hge].
  - assert (two52 <= q < two53) as Bq.
    { rewrite Eq. unfold two52, two53 in *. split.
      - apply Z.div_le_lower_bound; nia.
      - apply Z.div_lt_upper_bound; nia. }
    rewrite round_53 by lia.
    destruct (_ =? two53); eauto.
  - assert (two53 <= q < two54) as Bq.
    { rewrite Eq. unfold two52, two53, two54 in *. split.
      - apply Z.div_le_lower_bound; nia.
      - apply Z.div_lt_upper_bound; nia. }
    rewrite round_54 by lia. cbv zeta.
    destruct (_ =? two53); eauto.
Qed.

Lemma fraction_zero_iff d t :
  0 <= d <= INT_MAX -> 0 < t <= INT_MAX ->
  eqb (div (of_int d) (of_int t)) (of_int 0) = true <-> d = 0.
Proof.
  intros Hd Ht. split.
  - intros Heq. destruct (Z.eq_dec d 0) as [|Hne]; [done|].
    destruct (div_of_int_finite d t ltac:(lia) Ht) as (m & e & E).
    rewrite E in Heq. done.
  - intros ->.
    destruct (of_int_pos t Ht) as (mt & kt & -> & _). reflexivity.
Qed.

Lemma new_location_above_half nb k :
  0 < nb -> nb < 2 * k -> new_location nb k = loc_Inexact Gt.
Proof.
  intros Hnb Hk. unfold new_location, new_location_even, new_location_odd.
  assert ((2 * k ?= nb) = Gt) as E1 by (apply Z.compare_gt_iff; lia).
  assert ((2 * k + 1 ?= nb) = Gt) as E2 by (apply Z.compare_gt_iff; lia).
  destruct k as [|p|p]; try lia.
  destruct (Z.even nb).
  - change (loc_Inexact (2 * Z.pos p ?= nb) = loc_Inexact Gt).
    by rewrite E1.
  - change (loc_Inexact
              match 2 * Z.pos p + 1 ?= nb with
              | Lt | Eq => Lt
              | Gt => Gt
              end = loc_Inexact Gt).
    by rewrite E2.
Qed.

Lemma pow2_gap a b j : 0 <= b -> 0 <= j -> a = b + j -> 2 ^ a = 2 ^ b * 2 ^ j.
Proof. intros Hb Hj ->. by rewrite Z.pow_add_r. Qed.

(** A fraction of exactly one twenty-fifth compares equal to [0.04]. *)
Lemma fraction_of_25 d :
  0 < d -> 25 * d <= INT_MAX ->
  eqb (div (of_int d) (of_int (25 * d))) lit_0_04 = true.
Proof.
  intros Hd Ht.
  destruct (of_int_pos d ltac:(lia)) as (md & kd & -> & Emd & Bd & Hkd).
  destruct (of_int_pos (25 * d) ltac:(lia))
    as (mt & kt & -> & Emt & Bt & Hkt).
  unfold div. rewrite SFdiv_normal by (done || lia).
  rewrite Emd, Emt in *. clear Emd Emt md mt.
  assert (0 < 2 ^ kt) as Pt by (apply Z.pow_pos_nonneg; lia).
  assert (kt + 4 <= kd <= kt + 5) as Hgap.
  { unfold two52, two53 in *. split.
    - destruct (Z.le_gt_cases (kt + 4) kd) as [|Hlt]; [done|]. exfalso.
      assert (2 ^ kd <= 2 ^ (kt + 3)) by (apply Z.pow_le_mono_r; lia).
      rewrite (pow2_gap (kt + 3) kt 3) in * by lia.
      change (2 ^ 3) with 8 in *. nia.
    - destruct (Z.le_gt_cases kd (kt + 5)) as [|Hlt]; [done|]. exfalso.
      assert (2 ^ (kt + 6) <= 2 ^ kd) by (apply Z.pow_le_mono_r; lia).
      rewrite (pow2_gap (kt + 6) kt 6) in * by lia.
      change (2 ^ 6) with 64 in *. nia. }
  set (X := d * 2 ^ kt).
  assert (0 < X) as HX by (unfold X; nia).
  assert (kd = kt + 4 \/ kd = kt + 5) as [->| ->] by lia.
  - rewrite (pow2_gap (kt + 4) kt 4) by lia. change (2 ^ 4) with 16.
    replace (d * (2 ^ kt * 16) * two53) with (144115188075855872 * X)
      by (unfold X, two53; lia).
    replace (25 * d * 2 ^ kt) with (25 * X) by (unfold X; lia).
    replace (- (kt + 4) - - kt - 53) with (-57) by lia.
    rewrite Z.div_mul_cancel_r, Z.mul_mod_distr_r by lia.
    change (144115188075855872 / 25) with 5764607523034234.
    change (144115188075855872 mod 25) with 22.
    rewrite new_location_above_half by lia. reflexivity.
  - rewrite (pow2_gap (kt + 5) kt 5) by lia. change (2 ^ 5) with 32.
    replace (d * (2 ^ kt * 32) * two53) with (288230376151711744 * X)
      by (unfold X, two53; lia).
    replace (25 * d * 2 ^ kt) with (25 * X) by (unfold X; lia).
    replace (- (kt + 5) - - kt - 53) with (-58) by lia.
    rewrite Z.div_mul_cancel_r, Z.mul_mod_distr_r by lia.
    change (288230376151711744 / 25) with 11529215046068469.
    change (288230376151711744 mod 25) with 19.
    rewrite new_location_above_half by lia. reflexivity.
Qed.

Lemma quotient_shift w h p c :
  0 < h -> 0 < p ->
  let q := w * (p * c) * two53 / (h * p) in
  h * q <= w * (c * two53) < h * (q + 1).
Proof.
  intros Hh Hp q.
  assert (q = w * (c * two53) / h) as ->.
  { unfold q. replace (w * (p * c) * two53) with (w * (c * two53) * p) by lia.
    apply Z.div_mul_cancel_r; lia. }
  apply div_bounds. lia.
Qed.

Lemma quotient_is_0_04 d t q T :
  0 < t < 2147483648 -> 0 < d ->
  T = 144115188075855872 ->
  t * q <= d * T < t * (q + 1) ->
  5764607523034234 <= q <= 5764607523034235 ->
  t = 25 * d.
Proof.
  intros Ht Hd -> Hq Bq.
  assert (t * 5764607523034234 <= t * q) by (apply Z.mul_le_mono_nonneg_l; lia).
  assert (t * (q + 1) <= t * 5764607523034236)
    by (apply Z.mul_le_mono_nonneg_l; lia).
  lia.
Qed.

Lemma quotient_is_0_04_double d t q :
  0 < t < 2147483648 -> 0 < d ->
  t * q <= d * 288230376151711744 < t * (q + 1) ->
  11529215046068468 <= q <= 11529215046068471 ->
  t = 25 * d.
Proof.
  intros Ht Hd Hq Bq.
  assert (t * 11529215046068468 <= t * q)
    by (apply Z.mul_le_mono_nonneg_l; lia).
  assert (t * (q + 1) <= t * 11529215046068472)
    by (apply Z.mul_le_mono_nonneg_l; lia).
  lia.
Qed.

(** Only a fraction of exactly one twenty-fifth compares equal to [0.04]. *)
Lemma fraction_0_04_exact d t :
  0 < d <= INT_MAX -> 0 < t <= INT_MAX ->
  eqb (div (of_int d) (of_int t)) lit_0_04 = true -> t = 25 * d.
Proof.
  intros Hd Ht.
  destruct (of_int_pos d Hd) as (md & kd & -> & Emd & Bd & Hkd).
  destruct (of_int_pos t Ht) as (mt & kt & -> & Emt & Bt & Hkt).
  unfold div. rewrite SFdiv_normal by (done || lia).
  rewrite Emd, Emt in *. clear Emd Emt.
  remember (d * 2 ^ kd * two53 / (t * 2 ^ kt)) as q eqn:Eq.
  set (l := new_location _ _).
  assert (0 < 2 ^ kd) as Pd by (apply Z.pow_pos_nonneg; lia).
  assert (0 < 2 ^ kt) as Pt by (apply Z.pow_pos_nonneg; lia).
  assert (d < 2147483648 /\ t < 2147483648) as [Hd' Ht']
    by (unfold INT_MAX in *; lia).
  unfold lit_0_04. intros Heq.
  destruct (Z.lt_ge_cases (d * 2 ^ kd) (t * 2 ^ kt)) as [Hlt|Hge].
  - assert (two52 <= q < two53) as Bq.
    { rewrite Eq. unfold two52, two53, two54 in *. split.
      - apply Z.div_le_lower_bound; nia.
      - apply Z.div_lt_upper_bound; nia. }
    rewrite round_53 in Heq by lia.
    pose proof (round_nearest_even_bounds q l) as Hr.
    destruct (Z.eqb_spec (round_nearest_even q l) two53) as [E|E].
    + by apply eqb_finite_inv in Heq as [_ Hm].
    + apply eqb_finite_inv in Heq as [He Hm].
      assert (round_nearest_even q l = 5764607523034235) as Hr2.
      { unfold two52 in *. lia. }
      assert (kd = kt + 4) as Ek by lia. subst kd.
      rewrite (pow2_gap (kt + 4) kt 4) in * by lia.
      pose proof (quotient_shift d t (2 ^ kt) (2 ^ 4) ltac:(lia) Pt) as Hq'.
      cbv zeta in Hq'. rewrite <- Eq in Hq'.
      apply (quotient_is_0_04 d t q (2 ^ 4 * two53)); (done || lia).
  - assert (two53 <= q < two54) as Bq.
    { rewrite Eq. unfold two52, two53, two54 in *. split.
      - apply Z.div_le_lower_bound; nia.
      - apply Z.div_lt_upper_bound; nia. }
    rewrite round_54 in Heq by lia.
    cbv zeta in Heq.
    pose proof (round_nearest_even_bounds
      (shr_m (shr_1 (shr_record_of_loc q l)))
      (loc_of_shr_record (shr_1 (shr_record_of_loc q l)))) as Hr.
    set (m1 := round_nearest_even _ _) in *.
    rewrite shr_1_of_loc_m in Hr by (unfold two53 in *; lia).
    pose proof (div_bounds q 2 ltac:(lia)) as Hq2.
    destruct (Z.eqb_spec m1 two53) as [E|E].
    + by apply eqb_finite_inv in Heq as [_ Hm].
    + apply eqb_finite_inv in Heq as [He Hm].
      assert (m1 = 5764607523034235) as Hr2.
      { unfold two52, two53 in *. lia. }
      assert (kd = kt + 5) as Ek by lia. subst kd.
      rewrite (pow2_gap (kt + 5) kt 5) in * by lia.
      pose proof (quotient_shift d t (2 ^ kt) (2 ^ 5) ltac:(lia) Pt) as Hq'.
      cbv zeta in Hq'. rewrite <- Eq in Hq'.
      apply (quotient_is_0_04_double d t q); (done || lia).
Qed.

(** The test of lines 46-52 on counters that fit an [int], in terms of the
    integers: some pixel is opaque, none of the opaque pixels is on the main
    diagonal, and exactly one in twenty-five is on the anti-diagonal. *)
Lemma diagonal_test_spec d1 d2 t :
  0 <= d1 <= INT_MAX -> 0 <= d2 <= INT_MAX -> t <= INT_MAX ->
  diagonal_test (mkDiag d1 d2 t) = true <-> 0 < t /\ d1 = 0 /\ t = 25 * d2.
Proof.
  intros Hd1 Hd2 Ht. unfold diagonal_test, diagonal_fractions.
  cbn [totalCount diagCount1 diagCount2].
  destruct (Z.ltb_spec 0 t) as [Hpos|Hneg]; [|split; [done|lia]].
  fold div eqb. rewrite andb_true_iff, fraction_zero_iff by lia.
  split.
  - intros [-> Heq]. split; [done|]. split; [done|].
    destruct (Z.eq_dec d2 0) as [->|Hne].
    + destruct (of_int_pos t ltac:(lia)) as (mt & kt & E & _).
      rewrite E in Heq. done.
    + apply fraction_0_04_exact; (done || lia).
  - intros (_ & -> & ->). split; [done|]. apply fraction_of_25; lia.
Qed.

End DoubleFacts.

(** ** The classifier *)

(** C1: on a square bitmap of positive width that does not match the
    diagonal signature the classifier returns the entry of the table for
    [maxRow], the largest number of opaque pixels in one row: 6 gives
    VerticalResize, 8 and 10 give HorizontalResize, 14 gives Pointer when
    [maxCol], the largest number of opaque pixels in one column, is 13 and
    VerticalResize otherwise, and every other value gives Other. The width is
    an [int] and the buffer holds the whole bitmap. *)
Theorem C1_row_occupancy_table (b : nat) (buf : list byte) (width : Z)
    (s : state) :
  0 < width <= INT_MAX ->
  heap s !! b = Some buf ->
  4 * (width * width) <= Z.of_nat (length buf) ->
  diagonal_signature buf width width = false ->
  exists r,
    determineResizeDirection (Some b) width width s
    = Some (r, add_loads (2 * (width * width)) s) /\
    let maxRow := max_row buf width width in
    let maxCol := max_col buf width width in
    (maxRow = 6 -> r = VERTICAL_RESIZE) /\
    (maxRow = 8 -> r = HORIZONTAL_RESIZE) /\
    (maxRow = 10 -> r = HORIZONTAL_RESIZE) /\
    (maxRow = 14 -> maxCol = 13 -> r = POINTER) /\
    (maxRow = 14 -> maxCol <> 13 -> r = VERTICAL_RESIZE) /\
    (maxRow <> 6 -> maxRow <> 8 -> maxRow <> 10 -> maxRow <> 14 -> r = OTHER).
Proof.
  intros Hw Hheap Hlen Hsig.
  exists (occupancy_switch (max_row buf width width) (max_col buf width width)).
  split.
  - rewrite (determineResizeDirection_run b buf width width) by (done || lia).
    by rewrite Hsig.
  - unfold occupancy_switch. cbv zeta.
    repeat split; intros;
      repeat match goal with
             | H : _ = _ |- _ => rewrite H; clear H
             | |- context [?a =? ?b] => destruct (Z.eqb_spec a b); try lia
             end; done.
Qed.

Lemma C1_row_occupancy_table_witness :
  exists r,
    determineResizeDirection (Some 0%nat) 8 8 (state_with bar_8)
    = Some (r, add_loads 128 (state_with bar_8)) /\
    max_row bar_8 8 8 = 8 /\ r = HORIZONTAL_RESIZE.
Proof.
  destruct (C1_row_occupancy_table 0%nat bar_8 8 (state_with bar_8))
    as (r & Hrun & H6 & H8 & Hrest).
  - unfold INT_MAX. lia.
  - reflexivity.
  - vm_compute. discriminate.
  - vm_compute. reflexivity.
  - exists r. split; [exact Hrun|]. split; [reflexivity|].
    apply H8. reflexivity.
Defined.

(** C2: on a square bitmap with an opaque pixel, when the fraction of the
    opaque pixels on the main diagonal compares equal to 0 and the fraction on
    the anti-diagonal compares equal to the double 0.04 (IEEE [==], no
    tolerance), the classifier returns DiagonalResize after the first
    traversal alone, whatever the row and column counts are. The number of
    opaque pixels fits the [int] that counts them. *)
Theorem C2_diagonal_signature (b : nat) (buf : list byte) (width : Z)
    (s : state) :
  0 < width <= INT_MAX ->
  heap s !! b = Some buf ->
  4 * (width * width) <= Z.of_nat (length buf) ->
  0 < opaque_total buf width width <= INT_MAX ->
  Double.eqb (fraction (opaque_on_diagonal buf width width)
                (opaque_total buf width width)) (Double.of_int 0) = true ->
  Double.eqb (fraction (opaque_on_antidiagonal buf width width)
                (opaque_total buf width width)) Double.lit_0_04 = true ->
  determineResizeDirection (Some b) width width s
  = Some (DIAGONAL_RESIZE, add_loads (width * width) s).
Proof.
  intros Hw Hheap Hlen [Hpos Hfit] Hf1 Hf2.
  rewrite (determineResizeDirection_run b buf width width) by (done || lia).
  rewrite diagonal_signature_no_wrap by done.
  unfold diagonal_test, diagonal_fractions. cbn [totalCount diagCount1 diagCount2].
  destruct (Z.ltb_spec 0 (opaque_total buf width width)); [|lia].
  unfold fraction in Hf1, Hf2. by rewrite Hf1, Hf2.
Qed.

Lemma C2_diagonal_signature_witness :
  determineResizeDirection (Some 0%nat) 8 8 (state_with slash_8)
  = Some (DIAGONAL_RESIZE, add_loads 64 (state_with slash_8))
  /\ opaque_total slash_8 8 8 = 25
  /\ opaque_on_antidiagonal slash_8 8 8 = 1
  /\ opaque_on_diagonal slash_8 8 8 = 0
  /\ max_row slash_8 8 8 = 6.
Proof.
  split; [|vm_compute; auto].
  apply (C2_diagonal_signature 0%nat slash_8 8 (state_with slash_8)).
  - unfold INT_MAX. lia.
  - reflexivity.
  - vm_compute. discriminate.
  - vm_compute. split; [reflexivity | discriminate].
  - vm_compute. reflexivity.
  - vm_compute. reflexivity.
Defined.

(** The diagonal signature of a bitmap of fewer than [2^31] opaque pixels,
    in terms of its counts. *)
Lemma diagonal_signature_spec buf width height :
  opaque_total buf width height <= INT_MAX ->
  diagonal_signature buf width height = true
  <-> 0 < opaque_total buf width height
      /\ opaque_on_diagonal buf width height = 0
      /\ opaque_total buf width height
         = 25 * opaque_on_antidiagonal buf width height.
Proof.
  intros Hfit. rewrite diagonal_signature_no_wrap by done.
  pose proof (opaque_where_nonneg (fun x y => x =? y) buf width height).
  pose proof (opaque_where_nonneg (fun x y => x =? width - y - 1)
                buf width height).
  pose proof (opaque_where_le_total (fun x y => x =? y) buf width height).
  pose proof (opaque_where_le_total (fun x y => x =? width - y - 1)
                buf width height).
  apply DoubleFacts.diagonal_test_spec;
    unfold opaque_on_diagonal, opaque_on_antidiagonal, opaque_total in *; lia.
Qed.

(** A square bitmap engineered so that none of its opaque pixels is on the
    main diagonal and exactly 4% of them are on the anti-diagonal is a
    DiagonalResize. *)
Corollary diagonal_resize_of_counts (b : nat) (buf : list byte) (width : Z)
    (s : state) :
  0 < width <= INT_MAX ->
  heap s !! b = Some buf ->
  4 * (width * width) <= Z.of_nat (length buf) ->
  0 < opaque_total buf width width <= INT_MAX ->
  opaque_on_diagonal buf width width = 0 ->
  opaque_total buf width width = 25 * opaque_on_antidiagonal buf width width ->
  determineResizeDirection (Some b) width width s
  = Some (DIAGONAL_RESIZE, add_loads (width * width) s).
Proof.
  intros Hw Hheap Hlen [Hpos Hfit] Hd1 Hd2.
  rewrite (determineResizeDirection_run b buf width width) by (done || lia).
  by rewrite (proj2 (diagonal_signature_spec buf width width Hfit)).
Qed.

(** C6: on a square bitmap none of whose pixels has a first byte above 10 (in
    particular when every alpha byte is zero) the opaque total is 0, the
    first traversal ends with [totalCount = 0] so that the guard
    [totalCount > 0] is false and no fraction is computed, and the classifier
    goes on to the row and column test and returns Other. *)
Theorem C6_transparent_bitmap (b : nat) (buf : list byte) (width : Z)
    (s : state) :
  0 < width <= INT_MAX ->
  heap s !! b = Some buf ->
  4 * (width * width) <= Z.of_nat (length buf) ->
  (forall x y, 0 <= x < width -> 0 <= y < width ->
     alpha_at buf width x y <= 10) ->
  opaque_total buf width width = 0 /\
  (exists c, count_diagonals (Some b) width width s
             = Some (c, add_loads (width * width) s)
             /\ totalCount c = 0 /\ diagonal_fractions c = None) /\
  determineResizeDirection (Some b) width width s
  = Some (OTHER, add_loads (2 * (width * width)) s).
Proof.
  intros Hw Hheap Hlen Hclear.
  assert (forall x y, x ∈ zrange width -> y ∈ zrange width ->
            opaque buf width x y = false) as Hop.
  { intros x y Hx%elem_of_zrange Hy%elem_of_zrange. unfold opaque.
    specialize (Hclear x y Hx Hy). lia. }
  assert (forall P, opaque_where P buf width width = 0) as Hzero.
  { intros P. unfold opaque_where.
    rewrite (sum_over_ext _ _ (fun _ => 0)).
    - apply sum_over_zero.
    - intros y Hy. rewrite (sum_over_ext _ _ (fun _ => 0)).
      + apply sum_over_zero.
      + intros x Hx. by rewrite Hop. }
  assert (forall y, y ∈ zrange width -> row_count buf width y = 0) as Hrow.
  { intros y Hy. unfold row_count. rewrite (sum_over_ext _ _ (fun _ => 0)).
    - apply sum_over_zero.
    - intros x Hx. by rewrite Hop. }
  assert (max_row buf width width = 0) as Hmax.
  { unfold max_row. rewrite (max_over_ext _ _ (fun _ => 0)) by done.
    apply max_over_zero. }
  split; [apply Hzero|]. split.
  - eexists. split; [apply (count_diagonals_run b buf width width); done || lia|].
    unfold diagonal_fractions, opaque_total. cbn [totalCount].
    rewrite !Hzero. done.
  - rewrite (determineResizeDirection_run b buf width width) by (done || lia).
    unfold diagonal_signature, diagonal_test, diagonal_fractions.
    unfold opaque_total, opaque_on_diagonal, opaque_on_antidiagonal.
    cbn [totalCount]. rewrite !Hzero, Hmax. done.
Qed.

Lemma C6_transparent_bitmap_witness :
  determineResizeDirection (Some 0%nat) 8 8 (state_with blank_8)
  = Some (OTHER, add_loads 128 (state_with blank_8)).
Proof.
  apply (C6_transparent_bitmap 0%nat blank_8 8 (state_with blank_8)).
  - unfold INT_MAX. lia.
  - reflexivity.
  - vm_compute. discriminate.
  - intros x y Hx Hy.
    assert (x = 0 \/ x = 1 \/ x = 2 \/ x = 3 \/ x = 4 \/ x = 5 \/ x = 6 \/ x = 7)
      as Ex by lia.
    assert (y = 0 \/ y = 1 \/ y = 2 \/ y = 3 \/ y = 4 \/ y = 5 \/ y = 6 \/ y = 7)
      as Ey by lia.
    destruct Ex as [->|[->|[->|[->|[->|[->|[->| ->]]]]]]];
      destruct Ey as [->|[->|[->|[->|[->|[->|[->| ->]]]]]]];
      vm_compute; discriminate.
Defined.

(** C9: on a buffer that holds a square bitmap of positive width the
    classifier returns, and what it returns is DiagonalResize,
    HorizontalResize, VerticalResize, Pointer or Other: never Arrow and
    never IBeam. *)
Theorem C9_classifier_range (b : nat) (buf : list byte) (width : Z)
    (s : state) :
  0 < width <= INT_MAX ->
  heap s !! b = Some buf ->
  4 * (width * width) <= Z.of_nat (length buf) ->
  exists r s',
    determineResizeDirection (Some b) width width s = Some (r, s') /\
    (r = DIAGONAL_RESIZE \/ r = HORIZONTAL_RESIZE \/ r = VERTICAL_RESIZE
     \/ r = POINTER \/ r = OTHER) /\
    r <> ARROW /\ r <> IBEAM.
Proof.
  intros Hw Hheap Hlen.
  assert (exists r s', determineResizeDirection (Some b) width width s
                       = Some (r, s')) as (r & s' & Hrun).
  { rewrite (determineResizeDirection_run b buf width width) by (done || lia).
    destruct (diagonal_signature buf width width); eauto. }
  exists r, s'. split; [done|].
  pose proof (determineResizeDirection_range _ _ _ _ _ _ Hrun) as Hr.
  split; [done|].
  destruct Hr as [->|[->|[->|[->| ->]]]]; done.
Qed.

Lemma C9_classifier_range_witness :
  exists r s',
    determineResizeDirection (Some 0%nat) 8 8 (state_with bar_8)
    = Some (r, s') /\ r <> ARROW /\ r <> IBEAM.
Proof.
  destruct (C9_classifier_range 0%nat bar_8 8 (state_with bar_8))
    as (r & s' & Hrun & _ & Ha & Hi).
  - unfold INT_MAX. lia.
  - reflexivity.
  - vm_compute. discriminate.
  - exists r, s'. auto.
Defined.

(** ** The query *)

Lemma bind_ret_r {A} (m : M A) s : bind m ret s = m s.
Proof. unfold bind, ret. by destruct (m s) as [[a s']|]. Qed.

Lemma getCurrentCursorType_eq pf s :
  getCurrentCursorType pf s = getCursorType pf s.
Proof. apply bind_ret_r. Qed.

Lemma size_query_ok_test pf :
  size_query_ok pf ->
  negb (data_size_status pf =? kCGErrorSuccess) || (data_size pf <=? 0)
  = false.
Proof.
  intros [-> Hpos]. destruct (Z.leb_spec (data_size pf) 0); [lia|done].
Qed.

Lemma size_query_fails_test pf :
  size_query_fails pf ->
  negb (data_size_status pf =? kCGErrorSuccess) || (data_size pf <=? 0)
  = true.
Proof.
  intros [Hne|Hle].
  - by destruct (Z.eqb_spec (data_size_status pf) kCGErrorSuccess).
  - destruct (Z.leb_spec (data_size pf) 0); [|lia]. apply orb_true_r.
Qed.

(** A query whose three platform calls succeed converts the reported
    dimensions and classifies the fetched bitmap. *)
Lemma getCursorType_after_fetch pf s :
  size_query_ok pf -> malloc_succeeds pf = true -> fetch_ok pf ->
  getCursorType pf s
  = (width <- lift_option
               (Double.to_int (cg_width (data_cursorSize pf))) ;;
     height <- lift_option
                (Double.to_int (cg_height (data_cursorSize pf))) ;;
     classify_bitmap (Some (next_block s)) width height) (fetched pf s).
Proof.
  intros Hsize Hmalloc Hfetch.
  unfold getCursorType, bind, platform. cbv zeta.
  rewrite (size_query_ok_test pf Hsize).
  unfold malloc. rewrite Hmalloc. cbn [next_block heap].
  unfold CGSGetGlobalCursorData. cbn [heap].
  rewrite lookup_insert_eq. cbn [fst snd].
  rewrite Hfetch. cbn [Z.eqb kCGErrorSuccess negb].
  cbn [next_block released stderr calls loads].
  rewrite insert_insert_eq. reflexivity.
Qed.

Lemma getCursorType_fetched pf s width height :
  size_query_ok pf -> malloc_succeeds pf = true -> fetch_ok pf ->
  reported_size pf width height ->
  getCursorType pf s
  = classify_bitmap (Some (next_block s)) width height (fetched pf s).
Proof.
  intros Hsize Hmalloc Hfetch [Hw Hh].
  rewrite getCursorType_after_fetch by done.
  unfold bind, lift_option. by rewrite Hw, Hh.
Qed.

(** A query whose fetch fails releases the buffer, writes a line and
    returns 1. *)
Lemma getCursorType_fetch_fails pf s :
  fetch_fails pf ->
  getCursorType pf s
  = (free (Some (next_block s)) ;;;
     fprintf_stderr
       "[Error] CGSGetGlobalCursorData failed with error code %d.\n"
       [data_status pf] ;;;
     ret 1) (fetched pf s).
Proof.
  intros (Hsize & Hmalloc & Hfetch).
  unfold getCursorType, platform, bind. cbv zeta.
  rewrite (size_query_ok_test pf Hsize).
  unfold malloc. rewrite Hmalloc. cbn [next_block heap].
  unfold CGSGetGlobalCursorData. cbn [heap].
  rewrite lookup_insert_eq. cbn [fst snd].
  destruct (Z.eqb_spec (data_status pf) kCGErrorSuccess) as [|_]; [done|].
  cbn [negb next_block released stderr calls loads].
  rewrite insert_insert_eq. reflexivity.
Qed.

Lemma heap_fetched pf s :
  heap (fetched pf s) !! next_block s = Some (fetched_bytes pf).
Proof. apply lookup_insert_eq. Qed.

Lemma length_overwrite old bytes : length (overwrite old bytes) = length old.
Proof.
  unfold overwrite. rewrite length_take, length_app, length_drop. lia.
Qed.

Lemma length_fetched_bytes pf :
  0 <= data_size pf <= INT_MAX ->
  Z.of_nat (length (fetched_bytes pf)) = data_size pf.
Proof.
  intros H. unfold fetched_bytes, size_t_of_int, wrap_size_t.
  rewrite length_overwrite, length_replicate.
  unfold INT_MAX in H. rewrite Z.mod_small; lia.
Qed.

(** The release of the buffer of a query gives back the heap the query
    started from. *)
Lemma free_query_buffer pf s s1 :
  heap_wf s ->
  heap s1 = heap (fetched pf s) ->
  exists s2, free (Some (next_block s)) s1 = Some (tt, s2)
             /\ heap s2 = heap s
             /\ next_block s2 = next_block s1
             /\ released s2 = released s1 ++ [next_block s]
             /\ stderr s2 = stderr s1 /\ calls s2 = calls s1
             /\ loads s2 = loads s1.
Proof.
  intros Hwf Hheap. unfold free. rewrite Hheap, heap_fetched.
  eexists. split; [reflexivity|]. cbn. repeat split.
  apply delete_insert_id, Hwf. lia.
Qed.

Lemma heap_wf_next s s' :
  heap_wf s -> heap s' = heap s -> next_block s' = S (next_block s) ->
  heap_wf s'.
Proof.
  intros Hwf Hheap Hnext b Hb. rewrite Hheap. apply Hwf. lia.
Qed.

Lemma free_live b buf s1 :
  heap s1 !! b = Some buf ->
  free (Some b) s1
  = Some (tt, mkState (delete b (heap s1)) (next_block s1)
                (released s1 ++ [b]) (stderr s1) (calls s1) (loads s1)).
Proof. intros H. unfold free. by rewrite H. Qed.

Lemma to_int_range f v :
  Double.to_int f = Some v -> INT_MIN <= v <= INT_MAX.
Proof.
  unfold Double.to_int, in_int_range.
  destruct f as [sg|sg| |sg m e]; try done.
  - intros [= <-]. unfold INT_MIN, INT_MAX. lia.
  - destruct (_ && _) eqn:E; [|done]. intros [= <-].
    apply andb_true_iff in E as [E1 E2]. lia.
Qed.

(** C3: when the fetched bitmap is reported 23 wide and 22 high the query
    returns IBeam whatever bytes were fetched, and not one byte of the buffer
    has been read when it returns: the classifier did not run. *)
Theorem C3_ibeam_short_circuit (pf : Platform) (s : state) :
  size_query_ok pf -> malloc_succeeds pf = true -> fetch_ok pf ->
  reported_size pf 23 22 ->
  exists s', getCurrentCursorType pf s = Some (enum_value IBEAM, s')
             /\ loads s' = loads s
             /\ released s' = released s ++ [next_block s].
Proof.
  intros Hsize Hmalloc Hfetch Hdim.
  rewrite getCurrentCursorType_eq.
  rewrite (getCursorType_fetched pf s 23 22) by done.
  change (classify_bitmap (Some (next_block s)) 23 22 (fetched pf s))
    with ((free (Some (next_block s)) ;;; ret (enum_value IBEAM))
            (fetched pf s)).
  unfold bind. rewrite (free_live _ _ _ (heap_fetched pf s)).
  eexists. split; [reflexivity|]. done.
Qed.

Lemma C3_ibeam_short_circuit_witness :
  exists s', getCurrentCursorType ibeam_platform initial_state = Some (1, s')
             /\ loads s' = 0.
Proof.
  destruct (C3_ibeam_short_circuit ibeam_platform initial_state)
    as (s' & Hrun & Hloads & _).
  - split; [reflexivity | reflexivity].
  - reflexivity.
  - reflexivity.
  - split; vm_compute; reflexivity.
  - exists s'. split; [exact Hrun | exact Hloads].
Defined.

(** C4: a query whose platform calls succeed and whose bitmap has positive
    dimensions hands the buffer to the classifier when the double
    [width / height] compares equal to 1, and reads nothing from the buffer
    when it does not; the quotient compares equal to 1 exactly for the square
    bitmaps, and every bitmap that is neither square nor 23 x 22 is an
    Arrow. *)
Theorem C4_dispatch_on_ratio (pf : Platform) (s : state) (width height : Z) :
  size_query_ok pf -> malloc_succeeds pf = true -> fetch_ok pf ->
  reported_size pf width height -> 0 < width -> 0 < height ->
  let pixelData := Some (next_block s) in
  let ratio := Double.div (Double.of_int width) (Double.of_int height) in
  (Double.eqb ratio (Double.of_int 1) = true ->
   getCurrentCursorType pf s
   = (result <- determineResizeDirection pixelData width height ;;
      free pixelData ;;;
      ret (enum_value result)) (fetched pf s)) /\
  (Double.eqb ratio (Double.of_int 1) = false ->
   exists v s', getCurrentCursorType pf s = Some (v, s')
                /\ loads s' = loads s) /\
  (width <> height -> ~ (width = 23 /\ height = 22) ->
   exists s', getCurrentCursorType pf s = Some (enum_value ARROW, s')
              /\ loads s' = loads s) /\
  (Double.eqb ratio (Double.of_int 1) = true <-> width = height).
Proof.
  intros Hsize Hmalloc Hfetch Hdim Hw Hh pixelData ratio.
  pose proof (to_int_range _ _ (proj1 Hdim)) as [_ Hwmax].
  pose proof (to_int_range _ _ (proj2 Hdim)) as [_ Hhmax].
  assert (Double.eqb ratio (Double.of_int 1) = true <-> width = height)
    as Hratio.
  { split.
    - intros Heq. destruct (Z.eq_dec width height) as [|Hne]; [done|].
      unfold ratio in Heq.
      rewrite DoubleFacts.ratio_different in Heq by (done || lia). done.
    - intros <-. apply DoubleFacts.ratio_equal. lia. }
  assert (getCurrentCursorType pf s
          = classify_bitmap pixelData width height (fetched pf s)) as Hrun.
  { rewrite getCurrentCursorType_eq. by apply getCursorType_fetched. }
  assert ((0 <? width) && (0 <? height) = true) as Hpos.
  { destruct (Z.ltb_spec 0 width), (Z.ltb_spec 0 height); (done || lia). }
  assert (forall v : Z,
            (free pixelData ;;; ret v) (fetched pf s)
            = Some (v, mkState (delete (next_block s) (heap (fetched pf s)))
                         (next_block (fetched pf s))
                         (released (fetched pf s) ++ [next_block s])
                         (stderr (fetched pf s)) (calls (fetched pf s))
                         (loads (fetched pf s)))) as Hfree.
  { intros v. unfold bind, pixelData.
    by rewrite (free_live _ _ _ (heap_fetched pf s)). }
  rewrite Hrun. unfold classify_bitmap. rewrite Hpos. cbv zeta. fold ratio.
  split; [|split; [|split]]; [| | |done].
  - intros Heq. rewrite Heq.
    destruct (Z.eqb_spec width 23) as [->|_];
      destruct (Z.eqb_spec height 22) as [->|_];
      first [apply Hratio in Heq; lia | done].
  - intros Hne. rewrite Hne.
    destruct ((width =? 23) && (height =? 22));
      rewrite Hfree; eexists _, _; (split; [reflexivity|done]).
  - intros Hne Hib.
    assert (Double.eqb ratio (Double.of_int 1) = false) as ->.
    { apply not_true_is_false. intros Heq. by apply Hratio in Heq. }
    assert ((width =? 23) && (height =? 22) = false) as ->.
    { destruct (Z.eqb_spec width 23), (Z.eqb_spec height 22); (done || lia). }
    rewrite Hfree. eexists. split; [reflexivity|done].
Qed.

Lemma C4_dispatch_on_ratio_witness :
  exists s', getCurrentCursorType wide_platform initial_state = Some (0, s')
             /\ loads s' = 0.
Proof.
  destruct (C4_dispatch_on_ratio wide_platform initial_state 32 16)
    as (_ & _ & Harrow & _).
  - split; [reflexivity | reflexivity].
  - reflexivity.
  - reflexivity.
  - split; vm_compute; reflexivity.
  - lia.
  - lia.
  - apply Harrow; lia.
Defined.

(** C5, as the code has it: on each of the three internal failures the query
    does not stop the caller; it writes one line to the error stream and
    returns the value 1. That value is not outside the enumeration: it is
    the declared constant IBEAM, and it is not OTHER, which is 6. *)
Theorem C5_failure_returns_one (pf : Platform) (s : state) :
  internal_failure pf ->
  exists s' line,
    getCurrentCursorType pf s = Some (1, s')
    /\ stderr s' = stderr s ++ [line]
    /\ loads s' = loads s
    /\ enum_value IBEAM = 1
    /\ enum_value OTHER <> 1.
Proof.
  intros Hfail. rewrite getCurrentCursorType_eq.
  unfold getCursorType, bind, platform. cbv zeta.
  destruct Hfail as [Hsize|[[Hsize Hmalloc]|(Hsize & Hmalloc & Hfetch)]].
  - rewrite (size_query_fails_test pf Hsize).
    eexists _, _. split; [reflexivity|]. done.
  - rewrite (size_query_ok_test pf Hsize).
    unfold malloc. rewrite Hmalloc.
    eexists _, _. split; [reflexivity|]. done.
  - rewrite (size_query_ok_test pf Hsize).
    unfold malloc. rewrite Hmalloc. cbn [next_block heap].
    unfold CGSGetGlobalCursorData. cbn [heap].
    rewrite lookup_insert_eq. cbn [fst snd].
    destruct (Z.eqb_spec (data_status pf) kCGErrorSuccess) as [|_]; [done|].
    cbn [negb]. unfold free. cbn [heap]. rewrite lookup_insert_eq.
    eexists _, _. split; [reflexivity|]. done.
Qed.

Lemma C5_failure_returns_one_witness :
  exists s' line,
    getCurrentCursorType service_down initial_state = Some (1, s')
    /\ stderr s' = [line].
Proof.
  destruct (C5_failure_returns_one service_down initial_state)
    as (s' & line & Hrun & Herr & _).
  - left. left. vm_compute. discriminate.
  - exists s', line. split; [exact Hrun | exact Herr].
Defined.

(** C5, as the specification states it, fails: the value the query returns
    on a failure of the size query is the value of a declared category. *)
Lemma C5_sentinel_is_declared_counterexample :
  internal_failure service_down /\
  exists s',
    getCurrentCursorType service_down initial_state = Some (1, s') /\
    ~ (forall c : CursorType, enum_value c <> 1).
Proof.
  split.
  - left. left. vm_compute. discriminate.
  - eexists. split; [reflexivity|].
    intros H. exact (H IBEAM eq_refl).
Qed.

(** C10: when the size query and the fetch succeed and the reported width
    or height is not positive, the query releases the buffer and returns
    Arrow, which is 0 and not the failure value 1; nothing is written to the
    error stream and nothing is read from the buffer. *)
Theorem C10_empty_bitmap_is_arrow (pf : Platform) (s : state)
    (width height : Z) :
  size_query_ok pf -> malloc_succeeds pf = true -> fetch_ok pf ->
  reported_size pf width height ->
  width <= 0 \/ height <= 0 ->
  exists s', getCurrentCursorType pf s = Some (enum_value ARROW, s')
             /\ enum_value ARROW <> 1
             /\ released s' = released s ++ [next_block s]
             /\ heap s' !! next_block s = None
             /\ stderr s' = stderr s
             /\ loads s' = loads s.
Proof.
  intros Hsize Hmalloc Hfetch Hdim Hnonpos.
  rewrite getCurrentCursorType_eq.
  rewrite (getCursorType_fetched pf s width height) by done.
  unfold classify_bitmap.
  assert ((0 <? width) && (0 <? height) = false) as ->.
  { destruct (Z.ltb_spec 0 width), (Z.ltb_spec 0 height); (done || lia). }
  unfold bind. rewrite (free_live _ _ _ (heap_fetched pf s)).
  eexists. split; [reflexivity|]. cbn. repeat split; try done.
  apply lookup_delete_eq.
Qed.

Lemma C10_empty_bitmap_is_arrow_witness :
  exists s', getCurrentCursorType empty_platform initial_state = Some (0, s')
             /\ released s' = [0%nat].
Proof.
  destruct (C10_empty_bitmap_is_arrow empty_platform initial_state 0 0)
    as (s' & Hrun & _ & Hrel & _).
  - split; [reflexivity | reflexivity].
  - reflexivity.
  - reflexivity.
  - split; reflexivity.
  - left. lia.
  - exists s'. split; [exact Hrun | exact Hrel].
Defined.

(** ** hideCursor and showCursor *)

(** C7: whatever the display services answer, [hideCursor] and [showCursor]
    return 0; an answer other than success adds one line to the error stream
    and changes nothing in the returned value. *)
Theorem C7_visibility_status (pf : Platform) (s : state) :
  exists s1 s2,
    hideCursor pf s = Some (0, s1) /\
    showCursor pf s = Some (0, s2) /\
    stderr s1
    = stderr s ++
      (if hide_status pf =? kCGErrorSuccess then []
       else [Fprintf "[Error] CGDisplayHideCursor failed (error = %d)\n"
               [hide_status pf]]) /\
    stderr s2
    = stderr s ++
      (if show_status pf =? kCGErrorSuccess then []
       else [Fprintf "[Error] CGDisplayShowCursor failed (error = %d)\n"
               [show_status pf]]).
Proof.
  unfold hideCursor, showCursor, bind, platform, ret, fprintf_stderr.
  cbv zeta.
  destruct (hide_status pf =? kCGErrorSuccess),
    (show_status pf =? kCGErrorSuccess), (event_source pf);
    cbn; eexists _, _; repeat split; by rewrite ?app_nil_r.
Qed.

(** ** The lifetime of the buffer of a query *)

Lemma release_and_return pf s s1 (v : Z) :
  heap_wf s ->
  heap s1 = heap (fetched pf s) ->
  next_block s1 = S (next_block s) ->
  released s1 = released s ->
  exists s', (free (Some (next_block s)) ;;; ret v) s1 = Some (v, s')
             /\ heap s' = heap s
             /\ next_block s' = S (next_block s)
             /\ released s' = released s ++ [next_block s]
             /\ heap_wf s'.
Proof.
  intros Hwf Hheap Hnext Hrel.
  destruct (free_query_buffer pf s s1 Hwf Hheap)
    as (s2 & Hfree & Hheap2 & Hnext2 & Hrel2 & _).
  exists s2. unfold bind, ret. rewrite Hfree.
  split; [done|]. split; [done|]. split; [congruence|].
  split; [congruence|]. apply (heap_wf_next s); [done|done|congruence].
Qed.

(** A query that allocates nothing releases nothing. *)
Lemma no_allocation_no_release pf s :
  size_query_fails pf \/ allocation_fails pf ->
  exists s', getCurrentCursorType pf s = Some (1, s')
             /\ heap s' = heap s /\ released s' = released s
             /\ next_block s' = next_block s.
Proof.
  intros Hfail. rewrite getCurrentCursorType_eq.
  unfold getCursorType, bind, platform. cbv zeta.
  destruct Hfail as [Hsize|[Hsize Hmalloc]].
  - rewrite (size_query_fails_test pf Hsize).
    eexists. split; [reflexivity|]. done.
  - rewrite (size_query_ok_test pf Hsize).
    unfold malloc. rewrite Hmalloc.
    eexists. split; [reflexivity|]. done.
Qed.

(** A query that allocated its buffer returns, provided the two reported
    dimensions fit an [int] and the buffer holds the bitmap the classifier
    is to read. *)
Lemma allocating_query_returns (pf : Platform) (s : state) :
  heap_wf s ->
  size_query_ok pf -> data_size pf <= INT_MAX ->
  malloc_succeeds pf = true ->
  (fetch_ok pf ->
   exists width height,
     reported_size pf width height /\
     (0 < width -> width = height ->
      4 * (width * height) <= data_size pf)) ->
  exists v s',
    getCurrentCursorType pf s = Some (v, s')
    /\ heap s' = heap s
    /\ next_block s' = S (next_block s)
    /\ released s' = released s ++ [next_block s]
    /\ heap_wf s'.
Proof.
  intros Hwf Hsize Hmax Hmalloc Hdims.
  destruct (Z.eq_dec (data_status pf) kCGErrorSuccess) as [Hfetch|Hfetch].
  - destruct (Hdims Hfetch) as (width & height & Hdim & Hfits).
    rewrite getCurrentCursorType_eq.
    rewrite (getCursorType_fetched pf s width height) by done.
    pose proof (to_int_range _ _ (proj1 Hdim)) as [_ Hwmax].
    pose proof (to_int_range _ _ (proj2 Hdim)) as [_ Hhmax].
    unfold classify_bitmap.
    destruct ((0 <? width) && (0 <? height)) eqn:Hpos;
      [|eexists; by apply (release_and_return pf s)].
    apply andb_true_iff in Hpos as [Hw%Z.ltb_lt Hh%Z.ltb_lt]. cbv zeta.
    destruct ((width =? 23) && (height =? 22));
      [eexists; by apply (release_and_return pf s)|].
    destruct (Double.eqb _ _) eqn:Hratio;
      [|eexists; by apply (release_and_return pf s)].
    assert (width = height) as <-.
    { destruct (Z.eq_dec width height) as [|Hne]; [done|].
      rewrite DoubleFacts.ratio_different in Hratio by (done || lia). done. }
    unfold bind at 1.
    rewrite (determineResizeDirection_run (next_block s) (fetched_bytes pf)
               width width);
      [|lia|lia| |apply heap_fetched].
    + destruct (diagonal_signature (fetched_bytes pf) width width);
        eexists; by apply (release_and_return pf s).
    + destruct Hsize as [_ Hsize].
      rewrite length_fetched_bytes by lia.
      specialize (Hfits Hw eq_refl). lia.
  - exists 1. rewrite getCurrentCursorType_eq.
    rewrite getCursorType_fetch_fails by done.
    destruct (free_query_buffer pf s (fetched pf s) Hwf eq_refl)
      as (s2 & Hfree & Hheap2 & Hnext2 & Hrel2 & _).
    unfold bind, fprintf_stderr, ret. rewrite Hfree.
    eexists. split; [reflexivity|]. cbn [heap next_block released].
    split; [done|]. split; [done|]. split; [done|].
    apply (heap_wf_next s); done.
Qed.

(** Whatever an allocating query returns, it returns with its buffer
    released once. *)
Lemma allocating_query_releases (pf : Platform) (s : state) v s' :
  heap_wf s -> size_query_ok pf -> malloc_succeeds pf = true ->
  getCurrentCursorType pf s = Some (v, s') ->
  heap s' = heap s
  /\ next_block s' = S (next_block s)
  /\ released s' = released s ++ [next_block s]
  /\ heap_wf s'.
Proof.
  intros Hwf Hsize Hmalloc. rewrite getCurrentCursorType_eq.
  assert (forall (v0 : Z) s1,
            heap s1 = heap (fetched pf s) ->
            next_block s1 = S (next_block s) ->
            released s1 = released s ->
            (free (Some (next_block s)) ;;; ret v0) s1 = Some (v, s') ->
            heap s' = heap s
            /\ next_block s' = S (next_block s)
            /\ released s' = released s ++ [next_block s]
            /\ heap_wf s') as Hrelease.
  { intros v0 s1 Hheap Hnext Hrel Hrun.
    destruct (release_and_return pf s s1 v0 Hwf Hheap Hnext Hrel)
      as (s2 & Hrun2 & Hfacts).
    rewrite Hrun2 in Hrun. by injection Hrun as _ <-. }
  destruct (Z.eq_dec (data_status pf) kCGErrorSuccess) as [Hfetch|Hfetch].
  - rewrite getCursorType_after_fetch by done.
    unfold bind at 1, lift_option at 1.
    destruct (Double.to_int (cg_width _)) as [width|]; [|done].
    unfold bind at 1, lift_option at 1.
    destruct (Double.to_int (cg_height _)) as [height|]; [|done].
    unfold classify_bitmap.
    destruct ((0 <? width) && (0 <? height)); [|by apply Hrelease].
    cbv zeta.
    destruct ((width =? 23) && (height =? 22)); [by apply Hrelease|].
    destruct (Double.eqb _ _); [|by apply Hrelease].
    unfold bind at 1.
    destruct (determineResizeDirection _ width height (fetched pf s))
      as [[r s1]|] eqn:Hclass; [|done].
    apply determineResizeDirection_frame in Hclass as [k ->].
    by apply Hrelease.
  - rewrite getCursorType_fetch_fails by done.
    destruct (free_query_buffer pf s (fetched pf s) Hwf eq_refl)
      as (s2 & Hfree & Hheap2 & Hnext2 & Hrel2 & _).
    unfold bind, fprintf_stderr, ret. rewrite Hfree.
    intros [= _ <-]. cbn [heap next_block released].
    split; [done|]. split; [done|]. split; [done|].
    apply (heap_wf_next s); done.
Qed.

(** C8: a query that allocated its buffer releases it exactly once on every
    path out: the failure of the fetch, the 23 x 22 short-circuit, the
    classification of a square bitmap and the Arrow of every other bitmap.
    Whatever the query returns, the block is the one entry it adds to the
    blocks given to [free] and it is live no longer; a second release would
    be undefined and the query would not return. And the query does return
    when the reported dimensions fit an [int] and the buffer holds the
    square bitmap the classifier is to read. *)
Theorem C8_buffer_released_once (pf : Platform) (s : state) :
  heap_wf s ->
  size_query_ok pf ->
  malloc_succeeds pf = true ->
  (forall v s',
     getCurrentCursorType pf s = Some (v, s') ->
     heap s' = heap s
     /\ next_block s' = S (next_block s)
     /\ released s' = released s ++ [next_block s]) /\
  (data_size pf <= INT_MAX ->
   (fetch_ok pf ->
    exists width height,
      reported_size pf width height /\
      (0 < width -> width = height ->
       4 * (width * height) <= data_size pf)) ->
   exists v s', getCurrentCursorType pf s = Some (v, s')).
Proof.
  intros Hwf Hsize Hmalloc. split.
  - intros v s' Hrun.
    destruct (allocating_query_releases pf s v s' Hwf Hsize Hmalloc Hrun)
      as (Hheap & Hnext & Hrel & _). done.
  - intros Hmax Hdims.
    destruct (allocating_query_returns pf s Hwf Hsize Hmax Hmalloc Hdims)
      as (v & s' & Hrun & _). by exists v, s'.
Qed.

Lemma C8_buffer_released_once_witness :
  exists v s',
    getCurrentCursorType bar_platform initial_state = Some (v, s')
    /\ released s' = [0%nat] /\ heap s' = ∅.
Proof.
  destruct (C8_buffer_released_once bar_platform initial_state)
    as (Hreleased & Hreturns).
  - intros b _. reflexivity.
  - split; [reflexivity | reflexivity].
  - reflexivity.
  - destruct Hreturns as (v & s' & Hrun).
    + vm_compute. discriminate.
    + intros _. exists 8, 8. split.
      * split; vm_compute; reflexivity.
      * intros _ _. vm_compute. discriminate.
    + destruct (Hreleased v s' Hrun) as (Hheap & _ & Hrel).
      exists v, s'. split; [exact Hrun|]. split; [exact Hrel | exact Hheap].
Defined.

(** * Further properties of the classifier, the query and the controls *)

(** A loop one of whose iterations is undefined in every state the loop can
    reach is undefined. *)
Lemma for_upto_undefined {A} (body : Z -> A -> M A) (i : Z) (n : nat) :
  (forall j a s a' s', body j a s = Some (a', s') ->
     exists k, s' = add_loads k s) ->
  forall lo a s,
    lo <= i < lo + Z.of_nat n ->
    (forall a k, body i a (add_loads k s) = None) ->
    for_upto n lo body a s = None.
Proof.
  intros Hframe. induction n as [|n IH]; intros lo a s Hi Hfault; [lia|].
  cbn [for_upto]. unfold bind.
  destruct (body lo a s) as [[a1 s1]|] eqn:E; [|done].
  destruct (Z.eq_dec i lo) as [->|Hne].
  - specialize (Hfault a 0). rewrite add_loads_0 in Hfault. congruence.
  - apply Hframe in E as [k1 ->]. apply IH; [lia|].
    intros a' k. rewrite add_loads_add. apply Hfault.
Qed.

Lemma diag_pixel_frame pixelData width y x c s c' s' :
  diag_pixel pixelData width y x c s = Some (c', s') ->
  exists k, s' = add_loads k s.
Proof.
  unfold diag_pixel, bind, ret.
  destruct (load _ _ s) as [[v s1]|] eqn:E; [|done].
  apply load_frame in E as ->. intros [= _ <-]. by exists 1.
Qed.

Lemma diag_row_frame pixelData width y c s c' s' :
  for_range width (diag_pixel pixelData width y) c s = Some (c', s') ->
  exists k, s' = add_loads k s.
Proof. apply for_upto_frame. intros x. apply diag_pixel_frame. Qed.

Lemma load_outside b buf idx s :
  heap s !! b = Some buf -> (length buf <= Z.to_nat idx)%nat ->
  load (Some b) idx s = None.
Proof.
  intros Hheap Hlen. unfold load. rewrite Hheap.
  by rewrite (lookup_ge_None_2 buf (Z.to_nat idx)).
Qed.

(** The classifier reads past a buffer that ends before the last pixel. *)
Lemma determineResizeDirection_outside b buf width height s :
  0 < width <= INT_MAX -> 0 < height <= INT_MAX ->
  heap s !! b = Some buf ->
  Z.of_nat (length buf) <= 4 * (width * height - 1) ->
  determineResizeDirection (Some b) width height s = None.
Proof.
  intros Hw Hh Hheap Hlen.
  assert (count_diagonals (Some b) width height s = None) as Hfirst.
  { unfold count_diagonals, for_range.
    apply (for_upto_undefined _ (height - 1)).
    - intros y. apply diag_row_frame.
    - lia.
    - intros c k. unfold for_range.
      apply (for_upto_undefined _ (width - 1)).
      + intros x. apply diag_pixel_frame.
      + lia.
      + intros c' k'. unfold diag_pixel, bind.
        rewrite (load_outside b buf); [done|done|].
        rewrite (pixel_index_in_range width height) by lia.
        assert ((height - 1) * width + (width - 1) = width * height - 1)
          as -> by lia.
        lia. }
  unfold determineResizeDirection, bind. by rewrite Hfirst.
Qed.

(** X1: on a live block and positive dimensions the classifier is defined
    exactly when the first byte of the last pixel lies in the buffer; on a
    shorter buffer a load falls outside the block. *)
Theorem X1_classifier_memory_safety (b : nat) (buf : list byte)
    (width height : Z) (s : state) :
  0 < width <= INT_MAX -> 0 < height <= INT_MAX ->
  heap s !! b = Some buf ->
  is_Some (determineResizeDirection (Some b) width height s)
  <-> 4 * (width * height - 1) < Z.of_nat (length buf).
Proof.
  intros Hw Hh Hheap. split.
  - intros [[r s'] Hrun].
    destruct (Z.lt_ge_cases (4 * (width * height - 1)) (Z.of_nat (length buf)))
      as [|Hshort]; [done|].
    rewrite (determineResizeDirection_outside b buf) in Hrun by (done || lia).
    done.
  - intros Hlen.
    rewrite (determineResizeDirection_run b buf width height) by (done || lia).
    destruct (diagonal_signature buf width height); eauto.
Qed.

Lemma X1_classifier_memory_safety_witness :
  is_Some (determineResizeDirection (Some 0%nat) 8 8 (state_with bar_8))
  /\ ~ is_Some (determineResizeDirection (Some 0%nat) 9 8 (state_with bar_8)).
Proof.
  split.
  - apply (X1_classifier_memory_safety 0%nat bar_8 8 8 (state_with bar_8)).
    + unfold INT_MAX. lia.
    + unfold INT_MAX. lia.
    + reflexivity.
    + vm_compute. reflexivity.
  - intros H.
    apply (X1_classifier_memory_safety 0%nat bar_8 9 8 (state_with bar_8))
      in H.
    + vm_compute in H. discriminate.
    + unfold INT_MAX. lia.
    + unfold INT_MAX. lia.
    + reflexivity.
Defined.

(** X2: whatever its arguments, a call of the classifier that returns has
    left the heap, the released blocks, the error stream and the platform
    calls as they were: it only reads. *)
Theorem X2_classifier_only_loads (pixelData : pointer) (width height : Z)
    (s : state) (r : CursorType) (s' : state) :
  determineResizeDirection pixelData width height s = Some (r, s') ->
  heap s' = heap s /\ next_block s' = next_block s
  /\ released s' = released s /\ stderr s' = stderr s
  /\ calls s' = calls s.
Proof.
  intros Hrun. by apply determineResizeDirection_frame in Hrun as [k ->].
Qed.

Lemma X2_classifier_only_loads_witness :
  exists r s',
    determineResizeDirection (Some 0%nat) 8 8 (state_with slash_8)
    = Some (r, s')
    /\ heap s' = heap (state_with slash_8) /\ released s' = [].
Proof.
  eexists _, _. split; [vm_compute; reflexivity|].
  destruct (X2_classifier_only_loads (Some 0%nat) 8 8 (state_with slash_8)
              DIAGONAL_RESIZE (add_loads 64 (state_with slash_8)))
    as (Hheap & _ & Hrel & _).
  - vm_compute. reflexivity.
  - split; [exact Hheap | exact Hrel].
Defined.

(** X3: on a buffer that holds a width x height bitmap, square or not, the
    classifier returns DiagonalResize after one load per pixel when the
    diagonal signature matches, and otherwise the entry of the occupancy
    switch for the largest row and column counts after two loads per
    pixel. *)
Theorem X3_classifier_on_rectangles (b : nat) (buf : list byte)
    (width height : Z) (s : state) :
  0 < width <= INT_MAX -> 0 < height <= INT_MAX ->
  heap s !! b = Some buf ->
  4 * (width * height - 1) < Z.of_nat (length buf) ->
  determineResizeDirection (Some b) width height s
  = if diagonal_signature buf width height
    then Some (DIAGONAL_RESIZE, add_loads (height * width) s)
    else Some (occupancy_switch (max_row buf width height)
                 (max_col buf width height),
               add_loads (2 * (height * width)) s).
Proof.
  intros Hw Hh Hheap Hlen.
  apply (determineResizeDirection_run b buf width height); (done || lia).
Qed.

(** Statistics of bitmaps with the same opaque pixels. *)
Section SameOpaquePixels.

Variables (buf1 buf2 : list byte) (width height : Z).
Hypothesis same_opaque :
  forall x y, 0 <= x < width -> 0 <= y < height ->
    opaque buf1 width x y = opaque buf2 width x y.

Lemma opaque_where_same P :
  opaque_where P buf1 width height = opaque_where P buf2 width height.
Proof.
  unfold opaque_where. apply sum_over_ext. intros y Hy%elem_of_zrange.
  apply sum_over_ext. intros x Hx%elem_of_zrange.
  by rewrite same_opaque.
Qed.

Lemma diagonal_signature_same :
  diagonal_signature buf1 width height = diagonal_signature buf2 width height.
Proof.
  unfold diagonal_signature, opaque_on_diagonal, opaque_on_antidiagonal,
    opaque_total.
  by rewrite !opaque_where_same.
Qed.

Lemma max_row_same : max_row buf1 width height = max_row buf2 width height.
Proof.
  unfold max_row. apply max_over_ext. intros y Hy%elem_of_zrange.
  unfold row_count. apply sum_over_ext. intros x Hx%elem_of_zrange.
  by rewrite same_opaque.
Qed.

Lemma max_col_same : max_col buf1 width height = max_col buf2 width height.
Proof.
  unfold max_col. apply max_over_ext. intros x Hx%elem_of_zrange.
  unfold col_count. apply sum_over_ext. intros y Hy%elem_of_zrange.
  by rewrite same_opaque.
Qed.

End SameOpaquePixels.

(** X4: the classifier sees of a bitmap only which pixels have a first byte
    above 10: on two buffers with the same opaque pixels, whatever their
    other bytes, it returns the same category after the same number of
    loads. *)
Theorem X4_classifier_sees_opacity_only (b1 b2 : nat) (buf1 buf2 : list byte)
    (width height : Z) (s1 s2 : state) :
  0 < width <= INT_MAX -> 0 < height <= INT_MAX ->
  heap s1 !! b1 = Some buf1 -> heap s2 !! b2 = Some buf2 ->
  4 * (width * height - 1) < Z.of_nat (length buf1) ->
  4 * (width * height - 1) < Z.of_nat (length buf2) ->
  (forall x y, 0 <= x < width -> 0 <= y < height ->
     (10 <? alpha_at buf1 width x y) = (10 <? alpha_at buf2 width x y)) ->
  exists r k,
    determineResizeDirection (Some b1) width height s1
    = Some (r, add_loads k s1) /\
    determineResizeDirection (Some b2) width height s2
    = Some (r, add_loads k s2).
Proof.
  intros Hw Hh Hheap1 Hheap2 Hlen1 Hlen2 Hsame.
  rewrite (determineResizeDirection_run b1 buf1 width height) by (done || lia).
  rewrite (determineResizeDirection_run b2 buf2 width height) by (done || lia).
  rewrite (diagonal_signature_same buf1 buf2 width height Hsame).
  rewrite (max_row_same buf1 buf2 width height Hsame).
  rewrite (max_col_same buf1 buf2 width height Hsame).
  destruct (diagonal_signature buf2 width height); eauto.
Qed.

Lemma occupancy_switch_not_diagonal maxRow maxCol :
  occupancy_switch maxRow maxCol <> DIAGONAL_RESIZE.
Proof.
  unfold occupancy_switch.
  repeat match goal with |- context [if ?c then _ else _] => destruct c end;
    done.
Qed.

(** X5: on a bitmap whose opaque pixels the [int] counter can count, the
    classifier returns DiagonalResize exactly when some pixel is opaque, no
    opaque pixel is on the main diagonal and the opaque pixels are exactly 25
    times those on the anti-diagonal. *)
Theorem X5_diagonal_resize_iff (b : nat) (buf : list byte)
    (width height : Z) (s : state) :
  0 < width <= INT_MAX -> 0 < height <= INT_MAX ->
  heap s !! b = Some buf ->
  4 * (width * height - 1) < Z.of_nat (length buf) ->
  opaque_total buf width height <= INT_MAX ->
  exists r s',
    determineResizeDirection (Some b) width height s = Some (r, s') /\
    (r = DIAGONAL_RESIZE
     <-> 0 < opaque_total buf width height
         /\ opaque_on_diagonal buf width height = 0
         /\ opaque_total buf width height
            = 25 * opaque_on_antidiagonal buf width height).
Proof.
  intros Hw Hh Hheap Hlen Hfit.
  rewrite (determineResizeDirection_run b buf width height) by (done || lia).
  pose proof (diagonal_signature_spec buf width height Hfit) as Hspec.
  destruct (diagonal_signature buf width height); eexists _, _;
    (split; [reflexivity|]).
  - split; [intros _; by apply Hspec | done].
  - split.
    + intros H. by apply occupancy_switch_not_diagonal in H.
    + intros H. by apply Hspec in H.
Qed.

Lemma max_over_le l f c :
  0 <= c -> (forall i, i ∈ l -> f i <= c) -> max_over l f <= c.
Proof.
  intros Hc. induction l as [|i l IH]; intros H; [simpl; lia|].
  cbn [max_over].
  assert (f i <= c) by (apply H; rewrite elem_of_cons; auto).
  assert (max_over l f <= c)
    by (apply IH; intros; apply H; rewrite elem_of_cons; auto).
  lia.
Qed.

Lemma unit_sum_bounds n f :
  0 <= n -> (forall i, 0 <= f i <= 1) -> 0 <= sum_over (zrange n) f <= n.
Proof.
  intros Hn Hf.
  pose proof (sum_over_bounds (zrange n) f 0 1 (fun i _ => Hf i)) as H.
  rewrite length_zrange in H. lia.
Qed.

Lemma row_count_le buf width y : 0 <= width -> row_count buf width y <= width.
Proof.
  intros Hw. unfold row_count.
  apply (unit_sum_bounds width); [done|]. intros i. apply indicator_bounds.
Qed.

Lemma col_count_le buf width height x :
  0 <= height -> col_count buf width height x <= height.
Proof.
  intros Hh. unfold col_count.
  apply (unit_sum_bounds height); [done|]. intros i. apply indicator_bounds.
Qed.

Lemma max_row_le buf width height :
  0 <= width -> max_row buf width height <= width.
Proof.
  intros Hw. apply max_over_le; [done|]. intros y _. by apply row_count_le.
Qed.

Lemma max_col_le buf width height :
  0 <= height -> max_col buf width height <= height.
Proof.
  intros Hh. apply max_over_le; [done|]. intros x _. by apply col_count_le.
Qed.

Lemma sum_over_zero_inv l f :
  (forall i, 0 <= f i) -> sum_over l f = 0 -> forall i, i ∈ l -> f i = 0.
Proof.
  intros Hf. induction l as [|j l IH]; intros Hsum i Hi; [by inversion Hi|].
  cbn [sum_over] in Hsum.
  assert (0 <= sum_over l f).
  { clear -Hf. induction l as [|a l IHl]; simpl; [lia|].
    specialize (Hf a). lia. }
  pose proof (Hf j).
  apply elem_of_cons in Hi as [->|Hi]; [lia|]. apply IH; [lia|done].
Qed.

(** A sum of zeros and ones over [0 .. n-1] with a zero at [y]. *)
Lemma sum_with_hole f y n :
  0 <= y -> (forall i, 0 <= f i <= 1) -> f y = 0 -> 0 <= n ->
  sum_over (zrange n) f <= n - (if y <? n then 1 else 0).
Proof.
  intros Hy Hf Hzero Hn. revert n Hn.
  apply (natlike_ind (fun n =>
    sum_over (zrange n) f <= n - (if y <? n then 1 else 0))).
  - rewrite zrange_0. simpl. destruct (Z.ltb_spec y 0); lia.
  - intros n Hn IH. change (Z.succ n) with (n + 1).
    rewrite zrange_succ, sum_over_app by done. cbn [sum_over].
    specialize (Hf n).
    destruct (Z.ltb_spec y n), (Z.ltb_spec y (n + 1)); try lia.
    assert (n = y) as -> by lia. lia.
Qed.

(** A square bitmap without an opaque pixel on its main diagonal has at
    most [width * (width - 1)] opaque pixels. *)
Lemma opaque_total_off_diagonal buf width :
  0 < width ->
  opaque_on_diagonal buf width width = 0 ->
  opaque_total buf width width <= (width - 1) * width.
Proof.
  intros Hw Hdiag.
  assert (forall y, y ∈ zrange width -> opaque buf width y y = false) as Hclear.
  { intros y Hy. unfold opaque_on_diagonal, opaque_where in Hdiag.
    pose proof (sum_over_zero_inv _ _
      (fun y => proj1 (unit_sum_bounds width
         (fun x => indicator (opaque buf width x y && (x =? y)))
         ltac:(lia) (fun i => indicator_bounds _))) Hdiag y Hy) as Hrow.
    pose proof (sum_over_zero_inv _ _
      (fun x => proj1 (indicator_bounds _)) Hrow y Hy) as Hcell.
    cbv beta in Hcell. rewrite Z.eqb_refl, andb_true_r in Hcell.
    by destruct (opaque buf width y y). }
  unfold opaque_total, opaque_where.
  pose proof (sum_over_bounds (zrange width)
    (fun y => sum_over (zrange width)
       (fun x => indicator (opaque buf width x y && true)))
    0 (width - 1)) as Hb.
  rewrite length_zrange in Hb. replace (Z.max 0 width) with width in Hb by lia.
  apply Hb. intros y Hy. split.
  - apply (unit_sum_bounds width); [lia|]. intros i. apply indicator_bounds.
  - pose proof (sum_with_hole
      (fun x => indicator (opaque buf width x y && true)) y width) as Hh.
    apply elem_of_zrange in Hy as Hy'.
    destruct (Z.ltb_spec y width); [|lia].
    apply Hh; [lia| |by rewrite Hclear|lia].
    intros i. apply indicator_bounds.
Qed.

(** A square bitmap narrower than 6 pixels does not match the diagonal
    signature. *)
Lemma diagonal_signature_narrow buf width :
  0 < width < 6 -> diagonal_signature buf width width = false.
Proof.
  intros Hw. apply not_true_is_false. intros Hsig.
  pose proof (opaque_where_nonneg (fun _ _ => true) buf width width) as H0.
  pose proof (opaque_where_nonneg (fun x y => x =? width - y - 1)
                buf width width) as H2.
  fold (opaque_total buf width width) in H0.
  fold (opaque_on_antidiagonal buf width width) in H2.
  assert (opaque_total buf width width <= width * width) as Hall.
  { unfold opaque_total, opaque_where.
    pose proof (sum_over_bounds (zrange width)
      (fun y => sum_over (zrange width)
         (fun x => indicator (opaque buf width x y && true))) 0 width) as Hb.
    rewrite length_zrange in Hb.
    replace (Z.max 0 width) with width in Hb by lia.
    apply Hb. intros y _. apply (unit_sum_bounds width); [lia|].
    intros i. apply indicator_bounds. }
  apply diagonal_signature_spec in Hsig as (Hpos & Hdiag & Hanti);
    [|unfold INT_MAX; nia].
  pose proof (opaque_total_off_diagonal buf width ltac:(lia) Hdiag).
  nia.
Qed.

(** X6: the least widths of the categories: a square bitmap narrower than 6
    is Other, a HorizontalResize is at least 8 wide and a Pointer at least
    14. *)
Theorem X6_minimum_widths (b : nat) (buf : list byte) (width : Z)
    (s : state) :
  0 < width <= INT_MAX ->
  heap s !! b = Some buf ->
  4 * (width * width - 1) < Z.of_nat (length buf) ->
  exists r s',
    determineResizeDirection (Some b) width width s = Some (r, s') /\
    (width < 6 -> r = OTHER) /\
    (r = HORIZONTAL_RESIZE -> 8 <= width) /\
    (r = POINTER -> 14 <= width).
Proof.
  intros Hw Hheap Hlen.
  rewrite (determineResizeDirection_run b buf width width) by (done || lia).
  pose proof (max_row_le buf width width ltac:(lia)) as Hrow.
  pose proof (max_over_nonneg (zrange width) (row_count buf width)) as Hrow0.
  fold (max_row buf width width) in Hrow0.
  destruct (diagonal_signature buf width width) eqn:Hsig.
  - eexists _, _. split; [reflexivity|]. split; [|done].
    intros Hnarrow. rewrite diagonal_signature_narrow in Hsig by lia. done.
  - eexists _, _. split; [reflexivity|]. unfold occupancy_switch.
    repeat match goal with
           | |- context [?a =? ?c] => destruct (Z.eqb_spec a c)
           end; repeat split; intros; (done || lia).
Qed.

Lemma X6_minimum_widths_witness :
  exists s', determineResizeDirection (Some 0%nat) 5 5
               (state_with (draw 5 5 (fun _ _ => true)))
             = Some (OTHER, s').
Proof.
  destruct (X6_minimum_widths 0%nat (draw 5 5 (fun _ _ => true)) 5
              (state_with (draw 5 5 (fun _ _ => true))))
    as (r & s' & Hrun & Hnarrow & _).
  - unfold INT_MAX. lia.
  - reflexivity.
  - vm_compute. reflexivity.
  - exists s'. rewrite <- Hnarrow by lia. exact Hrun.
Defined.


Lemma platform_cases pf :
  size_query_fails pf \/ allocation_fails pf \/ fetch_fails pf
  \/ (size_query_ok pf /\ malloc_succeeds pf = true /\ fetch_ok pf).
Proof.
  unfold size_query_fails, allocation_fails, fetch_fails, size_query_ok,
    fetch_ok.
  destruct (Z.eq_dec (data_size_status pf) kCGErrorSuccess);
    destruct (Z.le_gt_cases (data_size pf) 0);
    destruct (malloc_succeeds pf);
    destruct (Z.eq_dec (data_status pf) kCGErrorSuccess);
    intuition lia.
Qed.

Lemma allocates_true pf :
  allocates pf = true <-> size_query_ok pf /\ malloc_succeeds pf = true.
Proof.
  unfold allocates, size_query_ok.
  rewrite !andb_true_iff, Z.eqb_eq, Z.ltb_lt. tauto.
Qed.

Lemma allocates_false pf :
  allocates pf = false <-> size_query_fails pf \/ allocation_fails pf.
Proof.
  split.
  - intros Hno.
    destruct (platform_cases pf) as [H|[H|[(H1 & H2 & _)|(H1 & H2 & _)]]];
      auto; assert (allocates pf = true) by (by apply allocates_true);
      congruence.
  - intros H. apply not_true_is_false. intros [Hok Hm]%allocates_true.
    destruct Hok as [Hst Hpos].
    destruct H as [[H|H]|[_ H]]; (done || lia || congruence).
Qed.

Lemma free_then_ret pf s (v0 : Z) lines k s1 :
  s1 = mkState (heap (fetched pf s)) (S (next_block s)) (released s)
         (stderr s ++ lines) (calls (fetched pf s)) (loads s + k) ->
  (free (Some (next_block s)) ;;; ret v0) s1
  = Some (v0, query_done pf s lines k).
Proof.
  intros ->. unfold bind, ret.
  by rewrite (free_live _ (fetched_bytes pf)) by apply heap_fetched.
Qed.

Lemma fetched_as_start pf s :
  fetched pf s
  = mkState (heap (fetched pf s)) (S (next_block s)) (released s)
      (stderr s ++ []) (calls (fetched pf s)) (loads s + 0).
Proof. unfold fetched. cbn. by rewrite app_nil_r, Z.add_0_r. Qed.

Lemma add_loads_fetched k pf s :
  add_loads k (fetched pf s)
  = mkState (heap (fetched pf s)) (S (next_block s)) (released s)
      (stderr s ++ []) (calls (fetched pf s)) (loads s + k).
Proof. unfold add_loads, fetched. cbn. by rewrite app_nil_r. Qed.

(** Every way a query can return. *)
Lemma query_outcome pf s v s' :
  getCurrentCursorType pf s = Some (v, s') ->
  (allocates pf = false /\ v = 1 /\ exists line, s' = query_refused s line)
  \/ (fetch_fails pf /\ v = 1 /\ exists line, s' = query_done pf s [line] 0)
  \/ (size_query_ok pf /\ malloc_succeeds pf = true /\ fetch_ok pf /\
      exists width height c k,
        reported_size pf width height /\ v = enum_value c /\
        s' = query_done pf s [] k /\
        (k = 0
         \/ exists s1, determineResizeDirection (Some (next_block s))
                         width height (fetched pf s) = Some (c, s1)
                       /\ s1 = add_loads k (fetched pf s))).
Proof.
  rewrite getCurrentCursorType_eq.
  destruct (platform_cases pf) as [H|[H|[H|(Hsize & Hmalloc & Hfetch)]]].
  - intros Hrun. left. split; [apply allocates_false; auto|].
    revert Hrun. unfold getCursorType, bind, platform. cbv zeta.
    rewrite (size_query_fails_test pf H). intros [= <- <-]. eauto.
  - intros Hrun. left. split; [apply allocates_false; auto|].
    revert Hrun. unfold getCursorType, bind, platform. cbv zeta.
    destruct H as [Hsize Hmalloc].
    rewrite (size_query_ok_test pf Hsize). unfold malloc. rewrite Hmalloc.
    intros [= <- <-]. eauto.
  - intros Hrun. right. left. split; [done|].
    rewrite getCursorType_fetch_fails in Hrun by done.
    revert Hrun. unfold bind at 1.
    rewrite (free_live _ (fetched_bytes pf)) by apply heap_fetched.
    intros [= <- <-]. split; [done|]. eexists.
    unfold query_done. cbn. by rewrite Z.add_0_r.
  - intros Hrun. right. right. repeat (split; [done|]).
    rewrite getCursorType_after_fetch in Hrun by done.
    revert Hrun. unfold bind at 1, lift_option at 1.
    destruct (Double.to_int (cg_width _)) as [width|] eqn:Ew; [|done].
    unfold bind at 1, lift_option at 1.
    destruct (Double.to_int (cg_height _)) as [height|] eqn:Eh; [|done].
    unfold classify_bitmap.
    assert (forall c, (free (Some (next_block s)) ;;; ret (enum_value c))
                        (fetched pf s) = Some (v, s') ->
              exists width0 height0 c0 k,
                reported_size pf width0 height0 /\ v = enum_value c0 /\
                s' = query_done pf s [] k /\
                (k = 0
                 \/ exists s1,
                      determineResizeDirection (Some (next_block s)) width0
                        height0 (fetched pf s) = Some (c0, s1)
                      /\ s1 = add_loads k (fetched pf s))) as Hplain.
    { intros c.
      rewrite (free_then_ret pf s _ [] 0) by apply fetched_as_start.
      intros [= <- <-]. exists width, height, c, 0. by repeat split; auto. }
    destruct ((0 <? width) && (0 <? height)); [|apply Hplain].
    cbv zeta.
    destruct ((width =? 23) && (height =? 22)); [apply Hplain|].
    destruct (Double.eqb _ _); [|apply Hplain].
    unfold bind at 1.
    destruct (determineResizeDirection _ width height (fetched pf s))
      as [[c s1]|] eqn:Hclass; [|done].
    pose proof Hclass as Hframe.
    apply determineResizeDirection_frame in Hframe as [k ->].
    rewrite (free_then_ret pf s _ [] k) by apply add_loads_fetched.
    intros [= <- <-]. exists width, height, c, k.
    split; [done|]. split; [done|]. split; [done|]. right. eauto.
Qed.

(** X7: every value a query returns is the value of a declared constant of
    the enumeration. *)
Theorem X7_query_returns_declared_value (pf : Platform) (s : state)
    (v : Z) (s' : state) :
  getCurrentCursorType pf s = Some (v, s') ->
  exists c : CursorType, v = enum_value c.
Proof.
  intros Hrun.
  destruct (query_outcome pf s v s' Hrun)
    as [(_ & -> & _)|[(_ & -> & _)|(_ & _ & _ & w & h & c & k & _ & -> & _)]].
  - by exists IBEAM.
  - by exists IBEAM.
  - by exists c.
Qed.

Lemma X7_query_returns_declared_value_witness :
  exists c : CursorType, 2 = enum_value c.
Proof.
  apply (X7_query_returns_declared_value bar_platform initial_state 2
           (query_done bar_platform initial_state [] 128)).
  vm_compute. reflexivity.
Defined.

Lemma heap_query_done pf s lines k :
  heap_wf s -> heap (query_done pf s lines k) = heap s.
Proof. intros Hwf. cbn. apply delete_insert_id, Hwf. lia. Qed.

(** What a query leaves of the heap, whatever the platform answers. *)
Lemma query_restores_heap pf s v s' :
  heap_wf s ->
  getCurrentCursorType pf s = Some (v, s') ->
  heap s' = heap s /\ heap_wf s'
  /\ released s'
     = released s ++ (if allocates pf then [next_block s] else [])
  /\ next_block s'
     = if allocates pf then S (next_block s) else next_block s.
Proof.
  intros Hwf Hrun.
  assert (forall lines k, allocates pf = true ->
            s' = query_done pf s lines k ->
            heap s' = heap s /\ heap_wf s'
            /\ released s'
               = released s ++ (if allocates pf then [next_block s] else [])
            /\ next_block s'
               = if allocates pf then S (next_block s) else next_block s)
    as Hdone.
  { intros lines k -> ->. split; [by apply heap_query_done|].
    split; [|done]. apply (heap_wf_next s); [done| |done].
    by apply heap_query_done. }
  destruct (query_outcome pf s v s' Hrun)
    as [(-> & _ & line & ->)
       |[((Hsize & Hmalloc & _) & _ & line & E)
        |(Hsize & Hmalloc & _ & w & h & c & k & _ & _ & E & _)]].
  - cbn. rewrite app_nil_r. repeat split. intros b Hb. by apply Hwf.
  - apply (Hdone [line] 0); [by apply allocates_true|done].
  - apply (Hdone [] k); [by apply allocates_true|done].
Qed.

(** X10: a query that returns has asked the size once, and has asked for
    the bitmap once, into its own buffer and with the size it was given,
    exactly when it got a buffer; when the three platform calls succeed it
    has written nothing to the error stream. *)
Theorem X10_query_platform_calls (pf : Platform) (s : state) (v : Z)
    (s' : state) :
  getCurrentCursorType pf s = Some (v, s') ->
  calls s'
  = calls s ++ CGSGetGlobalCursorDataSize_call
               :: (if allocates pf
                   then [CGSGetGlobalCursorData_call (next_block s)
                           (data_size pf)]
                   else [])
  /\ (size_query_ok pf -> malloc_succeeds pf = true -> fetch_ok pf ->
      stderr s' = stderr s).
Proof.
  intros Hrun.
  destruct (query_outcome pf s v s' Hrun)
    as [(Hno & _ & line & ->)
       |[((Hsize & Hmalloc & Hfetch) & _ & line & ->)
        |(Hsize & Hmalloc & _ & w & h & c & k & _ & _ & -> & _)]].
  - rewrite Hno. split; [done|]. intros Hsize Hmalloc _.
    assert (allocates pf = true) by (by apply allocates_true). congruence.
  - rewrite (proj2 (allocates_true pf)) by done. cbn.
    split; [by rewrite <- app_assoc|]. intros _ _ Hok. done.
  - rewrite (proj2 (allocates_true pf)) by done. cbn.
    split; [by rewrite <- app_assoc|]. intros _ _ _. by rewrite app_nil_r.
Qed.

Lemma X10_query_platform_calls_witness :
  calls (query_done ibeam_platform initial_state [] 0)
  = [CGSGetGlobalCursorDataSize_call; CGSGetGlobalCursorData_call 0 2024].
Proof.
  apply (X10_query_platform_calls ibeam_platform initial_state 1).
  vm_compute. reflexivity.
Defined.

(** X9: two queries in a row, whatever the platform answers to each: when
    both return, the heap is the one the first started from, and the blocks
    given to [free] are the buffer of each query that got one, in order, the
    second buffer a block other than the first. *)
Theorem X9_queries_compose (pf1 pf2 : Platform) (s : state) (v1 v2 : Z)
    (s2 : state) :
  heap_wf s ->
  (a <- getCurrentCursorType pf1 ;;
   b <- getCurrentCursorType pf2 ;;
   ret (a, b)) s = Some ((v1, v2), s2) ->
  heap s2 = heap s /\ heap_wf s2
  /\ released s2
     = released s
       ++ (if allocates pf1 then [next_block s] else [])
       ++ (if allocates pf2
           then [if allocates pf1 then S (next_block s) else next_block s]
           else []).
Proof.
  intros Hwf. unfold bind at 1.
  destruct (getCurrentCursorType pf1 s) as [[a s1]|] eqn:Hrun1; [|done].
  unfold bind at 1.
  destruct (getCurrentCursorType pf2 s1) as [[b s1']|] eqn:Hrun2; [|done].
  intros [= <- <- <-].
  destruct (query_restores_heap pf1 s a s1 Hwf Hrun1)
    as (Hheap1 & Hwf1 & Hrel1 & Hnext1).
  destruct (query_restores_heap pf2 s1 b s1' Hwf1 Hrun2)
    as (Hheap2 & Hwf2 & Hrel2 & _).
  split; [congruence|]. split; [done|].
  by rewrite Hrel2, Hrel1, Hnext1, <- app_assoc.
Qed.

Lemma X9_queries_compose_witness :
  exists s2,
    (a <- getCurrentCursorType bar_platform ;;
     b <- getCurrentCursorType ibeam_platform ;;
     ret (a, b)) initial_state = Some ((2, 1), s2)
    /\ heap s2 = ∅ /\ released s2 = [0%nat; 1%nat].
Proof.
  eexists. split; [vm_compute; reflexivity|].
  destruct (X9_queries_compose bar_platform ibeam_platform initial_state 2 1
    (query_done ibeam_platform (query_done bar_platform initial_state [] 128)
       [] 0)) as (Hheap & _ & Hrel).
  - intros b _. reflexivity.
  - vm_compute. reflexivity.
  - split; [exact Hheap | exact Hrel].
Defined.


Section SameBlock.

Variables b1 b2 : nat.

Local Abbreviation same s1 s2 := (heap s1 !! b1 = heap s2 !! b2).










End SameBlock.




Lemma classify_square pf s width :
  0 < width <= INT_MAX ->
  classify_bitmap (Some (next_block s)) width width (fetched pf s)
  = (result <- determineResizeDirection (Some (next_block s)) width width ;;
     free (Some (next_block s)) ;;;
     ret (enum_value result)) (fetched pf s).
Proof.
  intros Hw. unfold classify_bitmap.
  destruct (Z.ltb_spec 0 width); [|lia]. cbn [andb]. cbv zeta.
  rewrite DoubleFacts.ratio_equal by done.
  destruct (Z.eqb_spec width 23) as [->|_]; [|done].
  reflexivity.
Qed.


(** X13: the query does not compare the reported dimensions with the size
    of its buffer: when the platform reports a square bitmap whose last pixel
    lies beyond the buffer, the classifier loads from outside the block and
    the query is undefined. *)
Theorem X13_query_reads_past_short_buffer (pf : Platform) (s : state)
    (width : Z) :
  size_query_ok pf -> malloc_succeeds pf = true -> fetch_ok pf ->
  reported_size pf width width -> 0 < width ->
  data_size pf <= INT_MAX ->
  data_size pf <= 4 * (width * width - 1) ->
  getCurrentCursorType pf s = None.
Proof.
  intros Hsize Hmalloc Hfetch Hdim Hw Hmax Hshort.
  pose proof (to_int_range _ _ (proj1 Hdim)) as [_ Hwmax].
  rewrite getCurrentCursorType_eq.
  rewrite (getCursorType_fetched pf s width width) by done.
  rewrite classify_square by lia. unfold bind at 1.
  rewrite (determineResizeDirection_outside (next_block s) (fetched_bytes pf));
    [done|lia|lia|apply heap_fetched|].
  destruct Hsize as [_ Hpos]. rewrite length_fetched_bytes by lia. done.
Qed.

Lemma X13_query_reads_past_short_buffer_witness :
  getCurrentCursorType short_platform initial_state = None.
Proof.
  apply (X13_query_reads_past_short_buffer short_platform initial_state 8).
  - split; [reflexivity | reflexivity].
  - reflexivity.
  - reflexivity.
  - split; vm_compute; reflexivity.
  - lia.
  - vm_compute. discriminate.
  - vm_compute. discriminate.
Defined.

Lemma overwrite_whole n (bytes : list byte) :
  length bytes = n -> overwrite (replicate n x00) bytes = bytes.
Proof.
  intros <-. unfold overwrite.
  rewrite length_replicate, drop_ge by (rewrite length_replicate; lia).
  by rewrite app_nil_r, firstn_all.
Qed.

Lemma fetched_bytes_whole pf :
  0 <= data_size pf <= INT_MAX ->
  Z.of_nat (length (data_bytes pf)) = data_size pf ->
  fetched_bytes pf = data_bytes pf.
Proof.
  intros Hsize Hlen. unfold fetched_bytes. apply overwrite_whole.
  unfold size_t_of_int, wrap_size_t. unfold INT_MAX in Hsize.
  rewrite Z.mod_small by lia. lia.
Qed.

(** X8: a query whose platform calls succeed on a square bitmap that fills
    the buffer returns the category the classifier computes from the fetched
    bytes: DiagonalResize on the diagonal signature, the entry of the
    occupancy switch otherwise; it writes nothing to the error stream and
    releases its buffer. *)
Theorem X8_square_bitmap_end_to_end (pf : Platform) (s : state) (width : Z) :
  size_query_ok pf -> malloc_succeeds pf = true -> fetch_ok pf ->
  reported_size pf width width -> 0 < width ->
  data_size pf <= INT_MAX ->
  Z.of_nat (length (data_bytes pf)) = data_size pf ->
  4 * (width * width - 1) < data_size pf ->
  exists s',
    getCurrentCursorType pf s
    = Some (enum_value
              (if diagonal_signature (data_bytes pf) width width
               then DIAGONAL_RESIZE
               else occupancy_switch (max_row (data_bytes pf) width width)
                      (max_col (data_bytes pf) width width)), s')
    /\ stderr s' = stderr s
    /\ released s' = released s ++ [next_block s].
Proof.
  intros Hsize Hmalloc Hfetch Hdim Hw Hmax Hlen Hfits.
  pose proof (to_int_range _ _ (proj1 Hdim)) as [_ Hwmax].
  rewrite getCurrentCursorType_eq.
  rewrite (getCursorType_fetched pf s width width) by done.
  rewrite classify_square by lia. unfold bind at 1.
  assert (fetched_bytes pf = data_bytes pf) as Hbytes.
  { apply fetched_bytes_whole; [destruct Hsize; lia|done]. }
  rewrite (determineResizeDirection_run (next_block s) (data_bytes pf)
             width width); [|lia|lia|lia|by rewrite <- Hbytes; apply heap_fetched].
  destruct (diagonal_signature (data_bytes pf) width width).
  - rewrite (free_then_ret pf s _ [] (width * width))
      by apply add_loads_fetched.
    eexists. split; [reflexivity|]. cbn. by rewrite app_nil_r.
  - rewrite (free_then_ret pf s _ [] (2 * (width * width)))
      by apply add_loads_fetched.
    eexists. split; [reflexivity|]. cbn. by rewrite app_nil_r.
Qed.

Lemma X8_square_bitmap_end_to_end_witness :
  exists s',
    getCurrentCursorType bar_platform initial_state
    = Some (enum_value HORIZONTAL_RESIZE, s').
Proof.
  destruct (X8_square_bitmap_end_to_end bar_platform initial_state 8)
    as (s' & Hrun & _).
  - split; [reflexivity | reflexivity].
  - reflexivity.
  - reflexivity.
  - split; vm_compute; reflexivity.
  - lia.
  - vm_compute. discriminate.
  - vm_compute. reflexivity.
  - vm_compute. reflexivity.
  - exists s'. exact Hrun.
Defined.


Lemma hideCursor_run pf s :
  hideCursor pf s
  = Some (0, after_calls s
               (if hide_status pf =? kCGErrorSuccess then []
                else [Fprintf "[Error] CGDisplayHideCursor failed (error = %d)\n"
                        [hide_status pf]])
               ([CFStringCreateWithCString_call "SetsCursorInBackground";
                 CGSSetConnectionProperty_call "SetsCursorInBackground" true;
                 CFRelease_call;
                 CGDisplayHideCursor_call;
                 CGEventSourceCreate_call;
                 CGEventSourceSetLocalEventsSuppressionInterval_call 0]
                ++ (if event_source pf then [CFRelease_call] else []))).
Proof.
  unfold hideCursor, bind, platform, ret, fprintf_stderr, after_calls.
  cbv zeta.
  destruct (hide_status pf =? kCGErrorSuccess), (event_source pf); cbn;
    by rewrite <- ?app_assoc, ?app_nil_r.
Qed.

Lemma showCursor_run pf s :
  showCursor pf s
  = Some (0, after_calls s
               (if show_status pf =? kCGErrorSuccess then []
                else [Fprintf "[Error] CGDisplayShowCursor failed (error = %d)\n"
                        [show_status pf]])
               ([CGDisplayShowCursor_call;
                 CGEventSourceCreate_call;
                 CGEventSourceSetLocalEventsSuppressionInterval_call 0]
                ++ (if event_source pf then [CFRelease_call] else []))).
Proof.
  unfold showCursor, bind, platform, ret, fprintf_stderr, after_calls.
  cbv zeta.
  destruct (show_status pf =? kCGErrorSuccess), (event_source pf); cbn;
    by rewrite <- ?app_assoc, ?app_nil_r.
Qed.


(** X14: a command that fails does not end [hideCursor] or [showCursor]:
    whatever the display services answer, the same platform calls are made,
    the reset of the suppression interval to 0 among them. *)
Theorem X14_failed_command_is_not_an_exit (pf pf' : Platform) (s : state) :
  event_source pf = event_source pf' ->
  exists s1 s1' s2 s2',
    hideCursor pf s = Some (0, s1) /\ hideCursor pf' s = Some (0, s1') /\
    showCursor pf s = Some (0, s2) /\ showCursor pf' s = Some (0, s2') /\
    calls s1 = calls s1' /\ calls s2 = calls s2' /\
    CGEventSourceSetLocalEventsSuppressionInterval_call 0 ∈ calls s1 /\
    CGEventSourceSetLocalEventsSuppressionInterval_call 0 ∈ calls s2.
Proof.
  intros Hsrc. eexists _, _, _, _.
  rewrite !hideCursor_run, !showCursor_run.
  repeat (split; [reflexivity|]). cbn [calls after_calls].
  rewrite Hsrc. split; [done|]. split; [done|].
  split; rewrite !elem_of_app, !elem_of_cons; auto 10.
Qed.

Lemma X14_failed_command_is_not_an_exit_witness :
  exists s1 s1',
    hideCursor ibeam_platform initial_state = Some (0, s1) /\
    hideCursor (mkPlatform 0 0 true 0 [] no_size 1000 1000 true)
      initial_state = Some (0, s1') /\
    calls s1 = calls s1'.
Proof.
  destruct (X14_failed_command_is_not_an_exit ibeam_platform
              (mkPlatform 0 0 true 0 [] no_size 1000 1000 true) initial_state)
    as (s1 & s1' & _ & _ & H1 & H1' & _ & _ & Hcalls & _).
  - reflexivity.
  - exists s1, s1'. split; [exact H1|]. split; [exact H1' | exact Hcalls].
Defined.





Lemma X3_classifier_on_rectangles_witness :
  determineResizeDirection (Some 0%nat) 8 4 (state_with band_8x4)
  = Some (HORIZONTAL_RESIZE, add_loads 64 (state_with band_8x4)).
Proof.
  rewrite (X3_classifier_on_rectangles 0%nat band_8x4 8 4
             (state_with band_8x4)).
  - vm_compute. reflexivity.
  - unfold INT_MAX. lia.
  - unfold INT_MAX. lia.
  - reflexivity.
  - vm_compute. reflexivity.
Defined.

Lemma X4_classifier_sees_opacity_only_witness :
  exists r k,
    determineResizeDirection (Some 0%nat) 8 8 (state_with bar_8)
    = Some (r, add_loads k (state_with bar_8)) /\
    determineResizeDirection (Some 0%nat) 8 8 (state_with tinted_bar_8)
    = Some (r, add_loads k (state_with tinted_bar_8)).
Proof.
  apply (X4_classifier_sees_opacity_only 0%nat 0%nat bar_8 tinted_bar_8 8 8
           (state_with bar_8) (state_with tinted_bar_8)).
  - unfold INT_MAX. lia.
  - unfold INT_MAX. lia.
  - reflexivity.
  - reflexivity.
  - vm_compute. reflexivity.
  - vm_compute. reflexivity.
  - intros x y Hx Hy.
    assert (x = 0 \/ x = 1 \/ x = 2 \/ x = 3 \/ x = 4 \/ x = 5 \/ x = 6 \/ x = 7)
      as Ex by lia.
    assert (y = 0 \/ y = 1 \/ y = 2 \/ y = 3 \/ y = 4 \/ y = 5 \/ y = 6 \/ y = 7)
      as Ey by lia.
    destruct Ex as [->|[->|[->|[->|[->|[->|[->| ->]]]]]]];
      destruct Ey as [->|[->|[->|[->|[->|[->|[->| ->]]]]]]];
      vm_compute; reflexivity.
Defined.

Lemma X5_diagonal_resize_iff_witness :
  exists s',
    determineResizeDirection (Some 0%nat) 8 8 (state_with slash_8)
    = Some (DIAGONAL_RESIZE, s').
Proof.
  destruct (X5_diagonal_resize_iff 0%nat slash_8 8 8 (state_with slash_8))
    as (r & s' & Hrun & Hiff).
  - unfold INT_MAX. lia.
  - unfold INT_MAX. lia.
  - reflexivity.
  - vm_compute. reflexivity.
  - vm_compute. discriminate.
  - exists s'. rewrite <- (proj2 Hiff); [exact Hrun|].
    vm_compute. repeat split; reflexivity.
Defined.

Lemma free_ret_value b (v0 v : Z) s1 s' :
  (free (Some b) ;;; ret v0) s1 = Some (v, s') -> v = v0.
Proof.
  unfold bind, ret.
  destruct (free (Some b) s1) as [[[] s2]|]; [|done]. by intros [= <- _].
Qed.

(** X11: when the three platform calls of a query succeed, the query
    returns IBeam exactly for a 23 x 22 bitmap, and Arrow exactly for a
    bitmap that is neither 23 x 22 nor square with a positive width. *)
Theorem X11_arrow_and_ibeam_by_dimensions (pf : Platform) (s : state)
    (width height v : Z) (s' : state) :
  size_query_ok pf -> malloc_succeeds pf = true -> fetch_ok pf ->
  reported_size pf width height ->
  getCurrentCursorType pf s = Some (v, s') ->
  (v = enum_value IBEAM <-> width = 23 /\ height = 22) /\
  (v = enum_value ARROW
   <-> ~ (width = 23 /\ height = 22)
       /\ ~ (0 < width /\ width = height)).
Proof.
  intros Hsize Hmalloc Hfetch Hdim.
  pose proof (to_int_range _ _ (proj1 Hdim)) as [_ Hwmax].
  pose proof (to_int_range _ _ (proj2 Hdim)) as [_ Hhmax].
  rewrite getCurrentCursorType_eq.
  rewrite (getCursorType_fetched pf s width height) by done.
  unfold classify_bitmap.
  destruct (Z.ltb_spec 0 width) as [Hw|Hw];
    destruct (Z.ltb_spec 0 height) as [Hh|Hh]; cbn [andb];
    try (intros ->%free_ret_value; cbn; split; split; intros; lia).
  cbv zeta.
  destruct (Z.eqb_spec width 23) as [->|Hw23];
    destruct (Z.eqb_spec height 22) as [->|Hh22]; cbn [andb];
    try (intros ->%free_ret_value; cbn; split; split; intros; lia).
  - destruct (Z.eq_dec 23 height) as [<-|Hne].
    + rewrite DoubleFacts.ratio_equal by (unfold INT_MAX; lia).
      unfold bind at 1.
      destruct (determineResizeDirection _ _ _ _) as [[r s1]|] eqn:Hclass;
        [|done].
      intros ->%free_ret_value.
      apply determineResizeDirection_range in Hclass
        as [->|[->|[->|[->| ->]]]]; cbn; split; split; intros; lia.
    + rewrite DoubleFacts.ratio_different by (done || lia).
      intros ->%free_ret_value. cbn. split; split; intros; lia.
  - destruct (Z.eq_dec width 22) as [->|Hne].
    + rewrite DoubleFacts.ratio_equal by (unfold INT_MAX; lia).
      unfold bind at 1.
      destruct (determineResizeDirection _ _ _ _) as [[r s1]|] eqn:Hclass;
        [|done].
      intros ->%free_ret_value.
      apply determineResizeDirection_range in Hclass
        as [->|[->|[->|[->| ->]]]]; cbn; split; split; intros; lia.
    + rewrite DoubleFacts.ratio_different by (done || lia).
      intros ->%free_ret_value. cbn. split; split; intros; lia.
  - destruct (Z.eq_dec width height) as [<-|Hne].
    + rewrite DoubleFacts.ratio_equal by lia.
      unfold bind at 1.
      destruct (determineResizeDirection _ _ _ _) as [[r s1]|] eqn:Hclass;
        [|done].
      intros ->%free_ret_value.
      apply determineResizeDirection_range in Hclass
        as [->|[->|[->|[->| ->]]]]; cbn; split; split; intros; lia.
    + rewrite DoubleFacts.ratio_different by (done || lia).
      intros ->%free_ret_value. cbn. split; split; intros; lia.
Qed.

Lemma X11_arrow_and_ibeam_by_dimensions_witness :
  (0 = enum_value ARROW <-> ~ (32 = 23 /\ 16 = 22) /\ ~ (0 < 32 /\ 32 = 16)).
Proof.
  apply (X11_arrow_and_ibeam_by_dimensions wide_platform initial_state 32 16 0
           (query_done wide_platform initial_state [] 0)).
  - split; [reflexivity | reflexivity].
  - reflexivity.
  - reflexivity.
  - split; vm_compute; reflexivity.
  - vm_compute. reflexivity.
Defined.
